(** * check_pg_extensions: credential rotation, operation polling and
      the enable/disable sequencer

    A shallow embedding of [scripts/check_pg_extensions.py].  The script
    talks to three things outside itself: its standard input (a stream of
    token lines), the service API (HTTP requests) and its standard output.
    They are modelled by one [world] record which the functions of the
    script pass along: the lines still to be read from standard input, the
    answers the service will give to the requests still to come, and the
    log of everything the process did so far.

    Standard input is taken line by line: a line is there as a whole or
    not yet, and [select] tells whether a line, or the end of the stream,
    can be read without waiting.  Time passes while a request is answered;
    the lines which arrive meanwhile are part of the exchange.  A request
    which is never answered, like a read for which no line ever comes,
    leaves the call [Blocked]. *)

From Stdlib Require Import String Ascii.
From Stdlib Require Import List NArith ZArith Bool Lia.
Import ListNotations.

Set Implicit Arguments.

(** ** Python strings *)

(** A [str] is a sequence of Unicode code points. *)
Definition pystr := list N.

(** A literal of the source, read as code points. *)
Definition lit (s : string) : pystr :=
  map N_of_ascii (list_ascii_of_string s).

Definition pystr_eq_dec (a b : pystr) : {a = b} + {a <> b} :=
  list_eq_dec N.eq_dec a b.

Definition pystr_eqb (a b : pystr) : bool :=
  if pystr_eq_dec a b then true else false.

(** The characters [str.strip()] removes when called without argument:
    the code points for which [str.isspace] holds. *)
Definition is_space (c : N) : bool :=
  ((9 <=? c) && (c <=? 13) ||
   (28 <=? c) && (c <=? 32) ||
   (c =? 133) || (c =? 160) || (c =? 5760) ||
   (8192 <=? c) && (c <=? 8202) ||
   (c =? 8232) || (c =? 8233) || (c =? 8239) || (c =? 8287) ||
   (c =? 12288))%N.

Fixpoint lstrip (s : pystr) : pystr :=
  match s with
  | [] => []
  | c :: r => if is_space c then lstrip r else s
  end.

Definition rstrip (s : pystr) : pystr := rev (lstrip (rev s)).

Definition strip (s : pystr) : pystr := rstrip (lstrip s).

(** Truth value of a string: [if line:]. *)
Definition truthy (s : pystr) : bool :=
  match s with [] => false | _ :: _ => true end.

(** A line which [strip] empties. *)
Definition blank (raw : pystr) : bool := forallb is_space raw.

(** ** The outside world *)

(** What [resp.json()["last_operation"]] holds: the state, and the
    description when the service supplies one. *)
Record last_operation := mkOp {
  state : pystr;
  description : option pystr
}.

(** The answer to one request: none at all (the transport fails), or a
    status code with, when the body is JSON with a ["last_operation"]
    holding a ["state"], that last operation.  A body without them makes
    the lookup raise, which is modelled by [KeyError]. *)
Inductive response :=
| ConnectionFailed
| Response (status_code : Z) (body : option last_operation).

(** One exchange with the service: its answer, and how many further token
    lines reach standard input before the script looks at it again. *)
Record exchange := mkExchange {
  reply : response;
  arrivals : nat
}.

(** The [json=] payload of a PATCH. *)
Inductive parameters :=
| enable_extensions (names : list pystr) (reboot : bool)
| disable_extensions (names : list pystr) (reboot : bool).

(** What the script writes to standard output. *)
Inductive output :=
| NewAuthToken                      (* "<new auth token>" *)
| Enabling (extension : pystr)      (* f"enabling extension {extension!r}" *)
| Disabling (extension : pystr)     (* f"disabling extension {extension!r}" *)
| Succeeded                         (* "succeeded" and a newline *)
| Description (d : pystr)           (* f"description: {...}" and a newline *)
| Dot.                              (* "." *)

(** What the process does, as seen from outside. *)
Inductive event :=
| Select (ready : bool)             (* select([f], [], [], 0)[0] *)
| Readline (waited : bool) (raw : pystr)   (* next(f) *)
| Print (o : output)
| Sleep (seconds : N)
| HttpGet (api_base_url service_guid : pystr) (headers : option pystr)
| HttpPatch (api_base_url service_guid : pystr) (headers : option pystr)
            (json : parameters).

Record world := mkWorld {
  _auth_header : option pystr;  (* the global: None or {"Authorization": v} *)
  lines : list pystr;           (* standard input: the lines not yet read *)
  avail : nat;                  (* how many of them have already arrived *)
  closed : bool;                (* the feeder closes the stream after them *)
  server : list exchange;       (* the exchanges still to come *)
  log : list event              (* what happened so far, oldest first *)
}.

Definition emit (e : event) (w : world) : world :=
  mkWorld (_auth_header w) (lines w) (avail w) (closed w) (server w)
          (log w ++ [e]).

Definition set_auth_header (v : pystr) (w : world) : world :=
  mkWorld (Some v) (lines w) (avail w) (closed w) (server w) (log w).

(** Standard input after one line was taken from it. *)
Definition consume (rest : list pystr) (w : world) : world :=
  mkWorld (_auth_header w) rest (pred (avail w)) (closed w) (server w)
          (log w).

(** The world after the service answered with exchange [x]. *)
Definition advance (x : exchange) (rest : list exchange) (w : world) : world :=
  mkWorld (_auth_header w) (lines w) (avail w + arrivals x) (closed w) rest
          (log w).

(** ** Results *)

Inductive exn :=
| StopIteration
| ConnectionError
| HTTPError
| KeyError
| SystemExit (code : Z).

(** A call returns, raises, or never comes back: it waits for a line which
    is never written or for an answer which is never given. *)
Inductive result (A : Type) :=
| Ok (a : A) (w : world)
| Raised (e : exn) (w : world)
| Blocked (w : world).

Arguments Raised {A} e w.
Arguments Blocked {A} w.

Definition world_of {A} (r : result A) : world :=
  match r with Ok _ w | Raised _ w | Blocked w => w end.

Definition M (A : Type) := world -> result A.

Definition ret {A} (a : A) : M A := fun w => Ok a w.

Definition bind {A B} (m : M A) (k : A -> M B) : M B :=
  fun w =>
    match m w with
    | Ok a w' => k a w'
    | Raised e w' => Raised e w'
    | Blocked w' => Blocked w'
    end.

Definition raise {A} (e : exn) : M A := fun w => Raised e w.

Notation "x <- m ;; k" := (bind m (fun x => k))
  (at level 61, m at next level, right associativity).
Notation "m ;; k" := (bind m (fun _ => k))
  (at level 61, right associativity).

(** ** Primitives *)

Definition print (o : output) : M unit := fun w => Ok tt (emit (Print o) w).

Definition sleep (seconds : N) : M unit :=
  fun w => Ok tt (emit (Sleep seconds) w).

Definition sys_exit {A} (code : Z) : M A := raise (SystemExit code).

(** Whether standard input is readable right now: a line has arrived, or
    the end of the stream has been reached. *)
Definition readable (w : world) : bool :=
  match lines w with
  | [] => closed w
  | _ :: _ => negb (Nat.eqb (avail w) 0)
  end.

Definition select_stdin : M bool :=
  fun w => Ok (readable w) (emit (Select (readable w)) w).

(** The answer of the service to a request already logged. *)
Definition answer (srv : list exchange) : M (Z * option last_operation) :=
  fun w =>
    match srv with
    | [] => Blocked w
    | x :: rest =>
        match reply x with
        | ConnectionFailed => Raised ConnectionError (advance x rest w)
        | Response c b => Ok (c, b) (advance x rest w)
        end
    end.

Definition raise_for_status (resp : Z * option last_operation) : M unit :=
  if ((400 <=? fst resp) && (fst resp <? 600))%Z then raise HTTPError
  else ret tt.

(** [resp.json()["last_operation"]] *)
Definition json_last_operation (resp : Z * option last_operation)
  : M last_operation :=
  match snd resp with
  | Some op => ret op
  | None => raise KeyError
  end.

(** [...["description"]] *)
Definition json_description (op : last_operation) : M pystr :=
  match description op with
  | Some d => ret d
  | None => raise KeyError
  end.

(** ** _get_auth_header *)

(** The loop of lines 31-41.  It runs over the lines still to be read:
    [ls] is [lines w] throughout. *)
Fixpoint read_header (ls : list pystr) (w : world) : result unit :=
  match ls with
  | [] => if closed w then Raised StopIteration w else Blocked w
  | raw :: rest =>
      let w1 := emit (Readline (Nat.eqb (avail w) 0) raw) (consume rest w) in
      let line := strip raw in
      let w2 := if truthy line
                then set_auth_header line (emit (Print NewAuthToken) w1)
                else w1 in
      match _auth_header w2 with
      | Some _ => Ok tt w2
      | None => read_header rest w2
      end
  end.

Definition _get_auth_header : M (option pystr) :=
  enter <- (fun w => match _auth_header w with
                     | None => ret true w
                     | Some _ => select_stdin w
                     end) ;;
  (if enter : bool then (fun w => read_header (lines w) w) else ret tt) ;;
  (fun w => ret (_auth_header w) w).

(** ** _wait_for_success *)

Definition requests_get (api_base_url service_guid : pystr)
    (headers : option pystr) (srv : list exchange)
  : M (Z * option last_operation) :=
  fun w => answer srv (emit (HttpGet api_base_url service_guid headers) w).

(** The loop of lines 47-63.  It runs over the exchanges still to come:
    [srv] is [server w] throughout.  (The last [match] only takes its
    second branch: with no exchange left [requests_get] never returns.) *)
Fixpoint poll (api_base_url service_guid : pystr) (srv : list exchange)
  : M unit :=
  sleep 10 ;;
  headers <- _get_auth_header ;;
  resp <- requests_get api_base_url service_guid headers srv ;;
  raise_for_status resp ;;
  op <- json_last_operation resp ;;
  let last_operation_state := state op in
  if pystr_eqb last_operation_state (lit "succeeded") then
    print Succeeded
  else if pystr_eqb last_operation_state (lit "failed") then
    d <- json_description op ;;
    print (Description d) ;;
    sys_exit 8
  else
    print Dot ;;
    match srv with
    | [] => (fun w => Blocked w)
    | _ :: rest => poll api_base_url service_guid rest
    end.

Definition _wait_for_success (api_base_url service_guid : pystr) : M unit :=
  fun w => poll api_base_url service_guid (server w) w.

(** ** test_extensions *)

Definition requests_patch (api_base_url service_guid : pystr)
    (headers : option pystr) (json : parameters)
  : M (Z * option last_operation) :=
  fun w =>
    answer (server w) (emit (HttpPatch api_base_url service_guid headers json) w).

(** [for x in xs: body] *)
Fixpoint for_each {A} (xs : list A) (body : A -> M unit) : M unit :=
  match xs with
  | [] => ret tt
  | x :: rest => body x ;; for_each rest body
  end.

Definition test_extensions (api_base_url service_guid : pystr)
    (extension_sets : list (list pystr)) : M unit :=
  for_each extension_sets (fun extension_set =>
    for_each extension_set (fun extension =>
      print (Enabling extension) ;;
      headers <- _get_auth_header ;;
      resp <- requests_patch api_base_url service_guid headers
                (enable_extensions [extension] true) ;;
      raise_for_status resp ;;
      _wait_for_success api_base_url service_guid) ;;
    for_each (rev extension_set) (fun extension =>
      print (Disabling extension) ;;
      headers <- _get_auth_header ;;
      resp <- requests_patch api_base_url service_guid headers
                (disable_extensions [extension] true) ;;
      raise_for_status resp ;;
      _wait_for_success api_base_url service_guid)).

(** The exit status of the interpreter: 0 when the script runs to its end,
    the argument of [sys.exit], 1 for any other uncaught exception; none
    while the process is still waiting. *)
Definition exit_status {A} (r : result A) : option Z :=
  match r with
  | Ok _ _ => Some 0%Z
  | Raised (SystemExit code) _ => Some code
  | Raised _ _ => Some 1%Z
  | Blocked _ => None
  end.

(** A process which has just started, reading the token lines [ls] of
    which [n] are already there, against a service answering with [srv]. *)
Definition start (ls : list pystr) (n : nat) (c : bool)
    (srv : list exchange) : world :=
  mkWorld None ls n c srv [].

(** * Vocabulary of the properties *)

(** ** The credential source *)

(** The world a refresh leaves behind: the readiness check said yes and
    the line [raw] was read. *)
Definition refreshed (raw : pystr) (rest : list pystr) (w : world) : world :=
  let w1 := emit (Readline false raw) (consume rest (emit (Select true) w)) in
  if truthy (strip raw)
  then set_auth_header (strip raw) (emit (Print NewAuthToken) w1)
  else w1.

(** The events of the credential source. *)
Definition stdin_event (e : event) : bool :=
  match e with
  | Select _ | Readline _ _ | Print NewAuthToken => true
  | _ => false
  end.

(** The credential a line read from the stream leaves. *)
Definition adopt (cur : option pystr) (raw : pystr) : option pystr :=
  if truthy (strip raw) then Some (strip raw) else cur.

(** The credential after the events [l], from the credential [cur]. *)
Fixpoint replay (cur : option pystr) (l : list event) : option pystr :=
  match l with
  | [] => cur
  | Readline _ raw :: r => replay (adopt cur raw) r
  | _ :: r => replay cur r
  end.

(** Whether a call looked at the stream: by a readiness check or a read. *)
Definition looked (l : list event) : bool :=
  existsb (fun e => match e with
                    | Select _ | Readline _ _ => true
                    | _ => false
                    end) l.

(** A token line as the feeder writes it: the value and a newline. *)
Definition token_line (s : string) : pystr := lit s ++ [10%N].

(** A process holding "bearer one" while two newer tokens have arrived. *)
Definition two_pending : world :=
  mkWorld (Some (lit "bearer one"))
          [token_line "bearer two"; token_line "bearer three"] 2 false [] [].


(** A process holding "bearer one"; an empty line has arrived. *)
Definition blank_pending : world :=
  mkWorld (Some (lit "bearer one")) [[10%N]; token_line "bearer two"] 1 false
          [] [].

(** ** Reading the log *)

(** The lines the events [l] took from the stream, in order. *)
Definition reads (l : list event) : list pystr :=
  flat_map (fun e => match e with Readline _ raw => [raw] | _ => [] end) l.

(** Whether the stream was looked at since the last request, after the
    events [l]; [lk] tells it for the time before them. *)
Fixpoint flag (lk : bool) (l : list event) : bool :=
  match l with
  | [] => lk
  | Select _ :: r | Readline _ _ :: r => flag true r
  | HttpGet _ _ _ :: r | HttpPatch _ _ _ _ :: r => flag false r
  | _ :: r => flag lk r
  end.

(** Every request of [l] carries the credential which is current when it
    is sent, and the stream was looked at since the request before it. *)
Fixpoint fresh (cur : option pystr) (lk : bool) (l : list event) : Prop :=
  match l with
  | [] => True
  | Select _ :: r => fresh cur true r
  | Readline _ raw :: r => fresh (adopt cur raw) true r
  | HttpGet _ _ h :: r | HttpPatch _ _ h _ :: r =>
      lk = true /\ h = cur /\ cur <> None /\ fresh cur false r
  | _ :: r => fresh cur lk r
  end.

(** What a piece of the script does to the log, whatever its outcome: the
    log grows by events [es] whose requests are [fresh], the credential
    and the stream change as [es] tells.  [pre] and [post] speak of the
    flag and of the credential before and after. *)
Definition spec {A} (pre : bool -> option pystr -> Prop) (m : M A)
    (post : A -> bool -> option pystr -> Prop) : Prop :=
  forall w lk, pre lk (_auth_header w) ->
  exists es,
    log (world_of (m w)) = log w ++ es /\
    fresh (_auth_header w) lk es /\
    _auth_header (world_of (m w)) = replay (_auth_header w) es /\
    lines w = reads es ++ lines (world_of (m w)) /\
    forall a w', m w = Ok a w' -> post a (flag lk es) (_auth_header w').

Definition any (_ : bool) (_ : option pystr) : Prop := True.

(** The header a request carries. *)
Definition request_header (e : event) : option (option pystr) :=
  match e with
  | HttpGet _ _ h | HttpPatch _ _ h _ => Some h
  | _ => None
  end.

(** The requests of a log: polls and state changes, in order. *)
Inductive request :=
| Poll
| Change (json : parameters).

Definition request_of (e : event) : list request :=
  match e with
  | HttpGet _ _ _ => [Poll]
  | HttpPatch _ _ _ json => [Change json]
  | _ => []
  end.

Definition requests (l : list event) : list request := flat_map request_of l.

(** ** The service *)

(** A status [raise_for_status] lets pass. *)
Definition status_ok (c : Z) : bool := negb ((400 <=? c) && (c <? 600))%Z.

(** The request is answered with a status which passes. *)
Definition accepted (x : exchange) : bool :=
  match reply x with
  | Response c _ => status_ok c
  | ConnectionFailed => false
  end.

(** The last operation a poll observes in exchange [x]. *)
Definition observed (x : exchange) : option last_operation :=
  match reply x with
  | Response c (Some op) => if status_ok c then Some op else None
  | _ => None
  end.

Definition terminal (st : pystr) : bool :=
  pystr_eqb st (lit "succeeded") || pystr_eqb st (lit "failed").

(** A poll answered with a state which is neither of the two. *)
Definition in_progress (x : exchange) : bool :=
  match observed x with
  | Some op => negb (terminal (state op))
  | None => false
  end.

(** A poll answered with "succeeded". *)
Definition succeeds (x : exchange) : bool :=
  match observed x with
  | Some op => pystr_eqb (state op) (lit "succeeded")
  | None => false
  end.

(** The exchanges of one operation which converges: the change is
    accepted, then polls see it in progress, the last one sees it
    succeeded. *)
Definition converges (xs : list exchange) : bool :=
  match xs with
  | [] => false
  | p :: polls =>
      accepted p &&
      match rev polls with
      | [] => false
      | s :: pend => succeeds s && forallb in_progress pend
      end
  end.

(** The token stream serves: it stays open, and holds a token when none
    was adopted yet. *)
Definition tokens_ok (w : world) : Prop :=
  closed w = false /\
  (_auth_header w = None ->
   existsb (fun l => negb (blank l)) (lines w) = true).

(** ** The plan *)

Inductive toggle :=
| Enable (extension : pystr)
| Disable (extension : pystr).

Definition payload (t : toggle) : parameters :=
  match t with
  | Enable e => enable_extensions [e] true
  | Disable e => disable_extensions [e] true
  end.

Definition announcement (t : toggle) : output :=
  match t with
  | Enable e => Enabling e
  | Disable e => Disabling e
  end.

(** The state changes of a plan, in the order of the two inner loops. *)
Definition toggles (plan : list (list pystr)) : list toggle :=
  flat_map (fun extension_set =>
              map Enable extension_set ++ map Disable (rev extension_set))
           plan.

(** The body shared by the two inner loops of [test_extensions]. *)
Definition perform (api_base_url service_guid : pystr) (t : toggle) : M unit :=
  print (announcement t) ;;
  headers <- _get_auth_header ;;
  resp <- requests_patch api_base_url service_guid headers (payload t) ;;
  raise_for_status resp ;;
  _wait_for_success api_base_url service_guid.

(** The requests of the state changes [ts] when the exchanges of each are
    [scripts]: the change, then one poll for each further exchange. *)
Fixpoint expected (ts : list toggle) (scripts : list (list exchange))
  : list request :=
  match ts, scripts with
  | t :: ts', xs :: scripts' =>
      Change (payload t) :: repeat Poll (pred (length xs)) ++
      expected ts' scripts'
  | _, _ => []
  end.

(** ** Sequences of polled states *)

(** The sequence [sts] holds [goal] at some place with no [other] at any
    earlier place. *)
Definition reaches (goal other : pystr) (sts : list pystr) : Prop :=
  exists n, nth_error sts n = Some goal /\
            forall m, m < n -> nth_error sts m <> Some other.

(** A token is held, no line is pending; the service will answer two
    polls: "in progress", then "succeeded". *)
Definition polling : world :=
  mkWorld (Some (lit "bearer one")) [] 0 false
          [mkExchange (Response 200 (Some (mkOp (lit "in progress") None))) 0;
           mkExchange (Response 200 (Some (mkOp (lit "succeeded") None))) 0]
          [].

(** The same, the second poll seeing "failed". *)
Definition polling_failure : world :=
  mkWorld (Some (lit "bearer one")) [] 0 false
          [mkExchange (Response 200 (Some (mkOp (lit "in progress") None))) 0;
           mkExchange (Response 200
             (Some (mkOp (lit "failed") (Some (lit "dependency missing"))))) 0]
          [].

(** ** The scenarios of the specification *)

Definition the_plan : list (list pystr) := [[lit "pg_trgm"; lit "hstore"]].

Definition accepted_patch : exchange := mkExchange (Response 202 None) 0.

Definition polled (st : string) : exchange :=
  mkExchange (Response 200 (Some (mkOp (lit st) None))) 0.

Definition polled_failed (d : string) : exchange :=
  mkExchange (Response 200 (Some (mkOp (lit "failed") (Some (lit d))))) 0.

(** One operation: accepted, "pending" once, then "succeeded". *)
Definition converging : list exchange :=
  [accepted_patch; polled "pending"; polled "succeeded"].

(** Every operation converges. *)
Definition scenario_success : world :=
  start [token_line "bearer one"] 1 false
        (converging ++ converging ++ converging ++ converging).

(** The enabling of hstore fails. *)
Definition scenario_failure : world :=
  start [token_line "bearer one"] 1 false
        (converging ++ [accepted_patch; polled_failed "dependency missing"]).

(** The feeder ended without writing a token. *)
Definition scenario_no_token : world :=
  start [[10%N]] 1 true converging.

(** A second token arrives while the first change is being answered. *)
Definition scenario_rotation : world :=
  start [token_line "bearer one"; token_line "bearer two"] 1 false
        [mkExchange (Response 202 None) 1; polled "succeeded"].

(** ** Failures and edges *)

(** The exception a request ends with when its answer does not pass:
    [requests] raises when there is no answer, [raise_for_status] when the
    status is an error. *)
Definition refusal (r : response) : exn :=
  match r with
  | ConnectionFailed => ConnectionError
  | Response _ _ => HTTPError
  end.

(** A token neither starts nor ends with white space, and is not empty. *)
Definition stripped (v : pystr) : Prop :=
  v <> [] /\
  (forall c r, v = c :: r -> is_space c = false) /\
  (forall c r, v = r ++ [c] -> is_space c = false).


(** The service is down when hstore is to be enabled. *)
Definition scenario_refused_change : world :=
  start [token_line "bearer one"] 1 false
        (converging ++ [mkExchange (Response 503 None) 0]).

(** A poll is answered 502, with a body which says "succeeded". *)
Definition scenario_refused_poll : world :=
  mkWorld (Some (lit "bearer one")) [] 0 false
          [mkExchange (Response 502 (Some (mkOp (lit "succeeded") None))) 0;
           polled "succeeded"]
          [].

(** A poll sees "failed", without a description. *)
Definition scenario_no_description : world :=
  mkWorld (Some (lit "bearer one")) [] 0 false
          [mkExchange (Response 200 (Some (mkOp (lit "failed") None))) 0] [].


(** The feeder has written an empty line only, and goes on. *)
Definition scenario_waiting : world :=
  start [[10%N]] 1 false converging.

(** The feeder ended after its first token was adopted. *)
Definition scenario_feeder_gone : world :=
  mkWorld (Some (lit "bearer one")) [] 0 true converging [].

(** ** What is printed *)

(** The progress text of a log: everything printed but the notices of
    the credential source. *)
Definition progress (l : list event) : list output :=
  flat_map (fun e => match e with
                     | Print NewAuthToken => []
                     | Print o => [o]
                     | _ => []
                     end) l.

(** The progress text of the state changes [ts] when the exchanges of
    each are [scripts] and each converges: the announcement, a dot for
    each poll but the last, "succeeded". *)
Fixpoint transcript (ts : list toggle) (scripts : list (list exchange))
  : list output :=
  match ts, scripts with
  | t :: ts', xs :: scripts' =>
      announcement t :: repeat Dot (length xs - 2) ++ Succeeded ::
      transcript ts' scripts'
  | _, _ => []
  end.

(** The notices of the credential source in a log. *)
Definition notices (l : list event) : nat :=
  length (filter (fun e => match e with
                           | Print NewAuthToken => true
                           | _ => false
                           end) l).

(** The lines among [ls] which hold a token. *)
Definition tokens (ls : list pystr) : list pystr :=
  filter (fun raw => negb (blank raw)) ls.

(** The call [m] adds to the log events which satisfy [P], however it
    ends. *)
Definition grows (P : list event -> Prop) {A} (m : M A) : Prop :=
  forall w, exists es, log (world_of (m w)) = log w ++ es /\ P es.

(** * Properties *)

(** ** Stripping *)

Lemma lstrip_blank (s : pystr) : blank s = true -> lstrip s = [].
Proof.
  induction s as [|c r IH]; simpl; [reflexivity|].
  intros H. apply andb_true_iff in H as [Hc Hr].
  rewrite Hc. auto.
Qed.

Lemma lstrip_head (s : pystr) c r : lstrip s = c :: r -> is_space c = false.
Proof.
  induction s as [|a s IH]; simpl; [discriminate|].
  destruct (is_space a) eqn:Ha; [exact IH|].
  intros E. injection E as -> _. exact Ha.
Qed.

Lemma lstrip_nil (s : pystr) : lstrip s = [] -> blank s = true.
Proof.
  induction s as [|a s IH]; simpl; [reflexivity|].
  destruct (is_space a); [exact IH|discriminate].
Qed.

Lemma blank_rev (s : pystr) : blank (rev s) = blank s.
Proof.
  unfold blank. destruct (forallb is_space s) eqn:E.
  - apply forallb_forall. intros x Hx. apply in_rev in Hx.
    rewrite forallb_forall in E. auto.
  - destruct (forallb is_space (rev s)) eqn:E'; [|reflexivity].
    rewrite <- E. symmetry. apply forallb_forall. intros x Hx.
    rewrite forallb_forall in E'. apply E'. rewrite <- in_rev. exact Hx.
Qed.

Lemma strip_nil_iff (s : pystr) : strip s = [] <-> blank s = true.
Proof.
  unfold strip, rstrip. split.
  - intros H.
    assert (E : lstrip (rev (lstrip s)) = []).
    { destruct (lstrip (rev (lstrip s))) as [|c l]; [reflexivity|].
      simpl in H. apply app_eq_nil in H as [_ H]. discriminate. }
    apply lstrip_nil in E. rewrite blank_rev in E.
    destruct (lstrip s) as [|c r] eqn:Es.
    + apply lstrip_nil. exact Es.
    + apply lstrip_head in Es. simpl in E. rewrite Es in E. discriminate.
  - intros H. rewrite (lstrip_blank s H). reflexivity.
Qed.

Lemma truthy_strip (raw : pystr) : truthy (strip raw) = negb (blank raw).
Proof.
  destruct (blank raw) eqn:B.
  - apply strip_nil_iff in B. rewrite B. reflexivity.
  - destruct (strip raw) eqn:S; [|reflexivity].
    apply strip_nil_iff in S. congruence.
Qed.

(** ** One call of _get_auth_header *)

Lemma get_header_idle w h :
  _auth_header w = Some h -> readable w = false ->
  _get_auth_header w = Ok (Some h) (emit (Select false) w).
Proof.
  intros Hh Hr. unfold _get_auth_header, bind, select_stdin, ret.
  rewrite Hh, Hr. simpl. rewrite Hh. reflexivity.
Qed.

Lemma get_header_eof w h :
  _auth_header w = Some h -> lines w = [] -> closed w = true ->
  _get_auth_header w = Raised StopIteration (emit (Select true) w).
Proof.
  intros Hh Hl Hc. unfold _get_auth_header, bind, select_stdin, ret, readable.
  rewrite Hh, Hl, Hc. simpl. rewrite Hl. simpl. rewrite Hc. reflexivity.
Qed.

Lemma get_header_refresh w h raw rest :
  _auth_header w = Some h -> lines w = raw :: rest -> avail w <> 0 ->
  _get_auth_header w =
    Ok (_auth_header (refreshed raw rest w)) (refreshed raw rest w).
Proof.
  intros Hh Hl Ha. unfold _get_auth_header, bind, select_stdin, ret, readable.
  rewrite Hh, Hl.
  destruct (Nat.eqb (avail w) 0) eqn:E; [apply Nat.eqb_eq in E; contradiction|].
  simpl. rewrite Hl. simpl. rewrite E. unfold refreshed.
  destruct (truthy (strip raw)); unfold emit, consume; simpl;
    rewrite ?Hh; reflexivity.
Qed.

Lemma refreshed_header w raw rest :
  _auth_header (refreshed raw rest w) =
    if blank raw then _auth_header w else Some (strip raw).
Proof.
  unfold refreshed. rewrite truthy_strip. destruct (blank raw); reflexivity.
Qed.

Lemma refreshed_lines w raw rest : lines (refreshed raw rest w) = rest.
Proof. unfold refreshed. destruct (truthy (strip raw)); reflexivity. Qed.


Lemma refreshed_log w raw rest :
  log (refreshed raw rest w) =
    log w ++ [Select true; Readline false raw] ++
      (if blank raw then [] else [Print NewAuthToken]).
Proof.
  unfold refreshed. rewrite truthy_strip.
  destruct (blank raw); simpl; rewrite <- ?app_assoc; reflexivity.
Qed.

(** The first acquisition: blank lines are read and passed over. *)
Lemma read_header_skips blanks : forall ls w,
  _auth_header w = None -> Forall (fun raw => blank raw = true) blanks ->
  exists w1,
    read_header (blanks ++ ls) w = read_header ls w1 /\
    _auth_header w1 = None /\ lines w1 = match blanks with [] => lines w | _ :: _ => ls end /\
    avail w1 = avail w - length blanks /\ closed w1 = closed w /\
    server w1 = server w /\
    (exists es, log w1 = log w ++ es /\ length es = length blanks /\
       forall e, In e es -> exists b raw, e = Readline b raw /\ In raw blanks).
Proof.
  induction blanks as [|raw blanks IH]; intros ls w Hn Hb.
  - exists w. simpl. repeat split; auto; try lia.
    exists []. rewrite app_nil_r. repeat split; auto. intros e [].
  - inversion Hb as [|? ? Hraw Hrest]; subst.
    simpl. rewrite truthy_strip, Hraw. simpl. rewrite Hn.
    set (w0 := emit _ _).
    destruct (IH ls w0) as (w1 & E & Hn1 & Hl1 & Ha1 & Hc1 & Hs1 & es & Hlog & Hlen & Hes);
      auto.
    exists w1. rewrite E. repeat split; auto.
    + rewrite Hl1. destruct blanks; reflexivity.
    + rewrite Ha1. subst w0. simpl. lia.
    + exists (Readline (Nat.eqb (avail w) 0) raw :: es).
      rewrite Hlog. subst w0. simpl. rewrite <- app_assoc. repeat split; auto.
      intros e [<-|He]; [eauto|].
      destruct (Hes e He) as (b & r & -> & Hin). eauto.
Qed.

Lemma get_header_first w blanks raw rest :
  _auth_header w = None -> lines w = blanks ++ raw :: rest ->
  Forall (fun l => blank l = true) blanks -> blank raw = false ->
  exists w' es b,
    _get_auth_header w = Ok (Some (strip raw)) w' /\
    _auth_header w' = Some (strip raw) /\ lines w' = rest /\
    avail w' = avail w - S (length blanks) /\
    log w' = log w ++ es ++ [Readline b raw; Print NewAuthToken] /\
    length es = length blanks /\
    forall e, In e es -> exists b' l, e = Readline b' l /\ In l blanks.
Proof.
  intros Hn Hl Hb Hraw.
  destruct (read_header_skips (raw :: rest) w Hn Hb)
    as (w1 & E & Hn1 & _ & Ha1 & _ & _ & es & Hlog & Hlen & Hes).
  exists (set_auth_header (strip raw)
            (emit (Print NewAuthToken)
               (emit (Readline (Nat.eqb (avail w1) 0) raw) (consume rest w1)))),
         es, (Nat.eqb (avail w1) 0).
  unfold _get_auth_header, bind, ret. rewrite Hn. simpl. rewrite Hl, E.
  simpl. rewrite truthy_strip, Hraw. simpl.
  repeat split; auto.
  - rewrite Ha1. lia.
  - rewrite Hlog, <- !app_assoc. reflexivity.
Qed.

(** No credential yet and nothing but blank lines left. *)
Lemma read_header_starved ls : forall w,
  _auth_header w = None -> Forall (fun l => blank l = true) ls ->
  exists w',
    read_header ls w = (if closed w then Raised StopIteration w' else Blocked w') /\
    _auth_header w' = None /\ server w' = server w /\ closed w' = closed w /\
    exists es, log w' = log w ++ es /\ reads es = ls /\
      forallb stdin_event es = true.
Proof.
  induction ls as [|raw ls IH]; intros w Hn Hb.
  - exists w. simpl. destruct (closed w); repeat split; auto;
      exists []; rewrite app_nil_r; auto.
  - inversion Hb as [|? ? Hraw Hrest]; subst.
    simpl. rewrite truthy_strip, Hraw. simpl. rewrite Hn.
    set (w0 := emit _ _).
    destruct (IH w0) as (w' & E & Hn' & Hs' & Hc' & es & Hlog & Hrd & Hes); auto.
    exists w'. rewrite E. repeat split; auto.
    exists (Readline (Nat.eqb (avail w) 0) raw :: es).
    rewrite Hlog. subst w0. simpl. rewrite <- app_assoc, Hrd. auto.
Qed.

Lemma get_header_starved w :
  _auth_header w = None -> Forall (fun l => blank l = true) (lines w) ->
  exists w',
    _get_auth_header w =
      (if closed w then Raised StopIteration w' else Blocked w') /\
    _auth_header w' = None /\ server w' = server w /\
    exists es, log w' = log w ++ es /\ reads es = lines w /\
      forallb stdin_event es = true.
Proof.
  intros Hn Hb.
  destruct (@read_header_starved (lines w) w Hn Hb)
    as (w' & E & Hn' & Hs' & _ & Hes).
  exists w'. unfold _get_auth_header, bind, ret. rewrite Hn. cbv beta iota.
  rewrite E. destruct (closed w); auto.
Qed.

(** ** What any call of _get_auth_header does *)

(** Closes a goal about a normal return of a call which did not return. *)
Ltac no_return :=
  let E := fresh "E" in intros ? ? E; discriminate E.

Lemma read_header_sound ls : forall w,
  lines w = ls ->
  exists es,
    log (world_of (read_header ls w)) = log w ++ es /\
    forallb stdin_event es = true /\
    _auth_header (world_of (read_header ls w)) = replay (_auth_header w) es /\
    server (world_of (read_header ls w)) = server w /\
    closed (world_of (read_header ls w)) = closed w /\
    ls = reads es ++ lines (world_of (read_header ls w)) /\
    (forall a w', read_header ls w = Ok a w' ->
       _auth_header w' <> None /\ looked es = true).
Proof.
  induction ls as [|raw ls IH]; intros w Hl.
  - exists []. simpl. rewrite app_nil_r.
    destruct (closed w) eqn:C; simpl; repeat (split; [solve [auto]|]);
      no_return.
  - simpl. unfold adopt. destruct (truthy (strip raw)) eqn:T; simpl.
    + exists [Readline (Nat.eqb (avail w) 0) raw; Print NewAuthToken].
      simpl. unfold adopt. rewrite T, <- app_assoc.
      repeat (split; [reflexivity|]).
      intros a w' E. injection E as _ <-. simpl. split; [discriminate|reflexivity].
    + destruct (_auth_header w) eqn:Hh.
      * exists [Readline (Nat.eqb (avail w) 0) raw]. simpl. unfold adopt.
        rewrite T. repeat (split; [solve [auto]|]).
        intros a w' E. injection E as _ <-. simpl. split; congruence.
      * set (w0 := emit _ _).
        destruct (IH w0 eq_refl)
          as (es & Hlog & Hev & Hauth & Hsrv & Hcl & Hls & Hok).
        exists (Readline (Nat.eqb (avail w) 0) raw :: es).
        rewrite Hlog, Hauth, Hsrv, Hcl. subst w0. simpl. unfold adopt.
        rewrite T, Hh, <- app_assoc. repeat (split; [solve [auto]|]).
        split; [f_equal; exact Hls|].
        intros a w' E. split; [apply (Hok a w' E)|reflexivity].
Qed.

Lemma get_header_sound w :
  exists es,
    log (world_of (_get_auth_header w)) = log w ++ es /\
    forallb stdin_event es = true /\
    _auth_header (world_of (_get_auth_header w)) = replay (_auth_header w) es /\
    server (world_of (_get_auth_header w)) = server w /\
    closed (world_of (_get_auth_header w)) = closed w /\
    lines w = reads es ++ lines (world_of (_get_auth_header w)) /\
    (forall a w', _get_auth_header w = Ok a w' ->
       a = _auth_header w' /\ a <> None /\ looked es = true).
Proof.
  unfold _get_auth_header, bind, select_stdin, ret.
  destruct (_auth_header w) eqn:Hh.
  - destruct (readable w) eqn:R.
    + destruct (@read_header_sound _ (emit (Select true) w) eq_refl)
        as (es & Hlog & Hev & Hauth & Hsrv & Hcl & Hls & Hok).
      exists (Select true :: es).
      destruct (read_header _ _) as [a w'|e w'|w'] eqn:E; simpl in *;
        rewrite ?Hh in Hauth;
        (split; [rewrite Hlog, <- app_assoc; reflexivity|]);
        (split; [exact Hev|]); (split; [exact Hauth|]);
        (split; [exact Hsrv|]); (split; [exact Hcl|]);
        (split; [exact Hls|]); try no_return.
      intros a0 w0 E0. injection E0 as <- <-.
      destruct (Hok a w' eq_refl) as [Hne _].
      repeat split; congruence.
    + exists [Select false]. simpl. rewrite Hh. repeat (split; [solve [auto]|]).
      intros a w' E. injection E as <- <-. simpl.
      repeat split; congruence.
  - destruct (@read_header_sound _ w eq_refl)
      as (es & Hlog & Hev & Hauth & Hsrv & Hcl & Hls & Hok).
    exists es.
    destruct (read_header _ _) as [a w'|e w'|w'] eqn:E; simpl in *;
      rewrite ?Hh in Hauth;
      (split; [exact Hlog|]);
      (split; [exact Hev|]); (split; [exact Hauth|]);
      (split; [exact Hsrv|]); (split; [exact Hcl|]);
      (split; [exact Hls|]); try no_return.
    intros a0 w0 E0. injection E0 as <- <-.
    destruct (Hok a w' eq_refl) as [Hne Hl].
    repeat split; congruence.
Qed.

(** ** The credential source: the claims *)





(** ** The log of a run *)

Lemma replay_app cur es1 es2 :
  replay cur (es1 ++ es2) = replay (replay cur es1) es2.
Proof.
  revert cur. induction es1 as [|e es1 IH]; intros cur; [reflexivity|].
  destruct e; simpl; apply IH.
Qed.

Lemma flag_app lk es1 es2 : flag lk (es1 ++ es2) = flag (flag lk es1) es2.
Proof.
  revert lk. induction es1 as [|e es1 IH]; intros lk; [reflexivity|].
  destruct e; simpl; apply IH.
Qed.

Lemma reads_app es1 es2 : reads (es1 ++ es2) = reads es1 ++ reads es2.
Proof. apply flat_map_app. Qed.

Lemma fresh_app cur lk es1 es2 :
  fresh cur lk es1 -> fresh (replay cur es1) (flag lk es1) es2 ->
  fresh cur lk (es1 ++ es2).
Proof.
  revert cur lk. induction es1 as [|e es1 IH]; intros cur lk H1 H2;
    [exact H2|].
  destruct e; simpl in *; try (apply IH; assumption);
    destruct H1 as (? & ? & ? & ?); repeat split; auto.
Qed.

Lemma fresh_stdin cur lk es :
  forallb stdin_event es = true -> fresh cur lk es.
Proof.
  revert cur lk. induction es as [|e es IH]; intros cur lk H; [exact I|].
  simpl in H. apply andb_true_iff in H as [He H].
  destruct e as [| | o | | |]; simpl in *; try discriminate He; auto.
Qed.

Lemma flag_stdin lk es :
  forallb stdin_event es = true -> looked es = true -> flag lk es = true.
Proof.
  revert lk. induction es as [|e es IH]; intros lk H L; [discriminate L|].
  simpl in H. apply andb_true_iff in H as [He H].
  assert (K : forall es b, forallb stdin_event es = true -> flag true es = b ->
                           b = true).
  { clear. induction es as [|e es IH]; intros b H E; [simpl in E; congruence|].
    simpl in H. apply andb_true_iff in H as [He H].
    destruct e as [| | o | | |]; simpl in *; try discriminate He; eauto. }
  destruct e as [| | o | | |]; simpl in *; try discriminate He; eauto.
Qed.

Section Rules.
Context {A B : Type}.
Implicit Types (P : bool -> option pystr -> Prop).

Lemma spec_bind P (m : M A) (Q : A -> bool -> option pystr -> Prop)
      (k : A -> M B) (R : B -> bool -> option pystr -> Prop) :
  spec P m Q -> (forall a, spec (Q a) (k a) R) -> spec P (bind m k) R.
Proof.
  intros Hm Hk w lk Hp.
  destruct (Hm w lk Hp) as (es1 & Hlog1 & Hf1 & Ha1 & Hl1 & Hq).
  unfold bind. destruct (m w) as [a w1|e w1|w1] eqn:E; simpl in *.
  - destruct (Hk a w1 (flag lk es1) (Hq a w1 eq_refl))
      as (es2 & Hlog2 & Hf2 & Ha2 & Hl2 & Hr).
    exists (es1 ++ es2).
    rewrite Hlog2, Hlog1, Ha2, Ha1, replay_app, reads_app, flag_app,
      <- !app_assoc.
    repeat split; auto.
    + apply fresh_app; [exact Hf1|]. rewrite <- Ha1. exact Hf2.
    + rewrite <- Hl2. exact Hl1.
  - exists es1. repeat split; auto. no_return.
  - exists es1. repeat split; auto. no_return.
Qed.

Lemma spec_weaken P P' (m : M A) (Q Q' : A -> bool -> option pystr -> Prop) :
  spec P m Q -> (forall lk c, P' lk c -> P lk c) ->
  (forall a lk c, Q a lk c -> Q' a lk c) -> spec P' m Q'.
Proof.
  intros Hm Hp Hq w lk H.
  destruct (Hm w lk (Hp _ _ H)) as (es & Hlog & Hf & Ha & Hl & Hpost).
  exists es. repeat split; auto.
Qed.
End Rules.

(** A step which leaves the log, the credential and the stream alone. *)
Lemma spec_silent {A} (m : M A) P :
  (forall w, world_of (m w) = w) -> spec P m (fun _ => P).
Proof.
  intros H w lk Hp. exists []. rewrite H, app_nil_r. repeat split; auto.
  intros a w' E. pose proof (H w) as Hw. rewrite E in Hw. simpl in Hw.
  subst w'. exact Hp.
Qed.

Lemma spec_print o P : spec P (print o) (fun _ => P).
Proof.
  intros w lk Hp. exists [Print o]. simpl.
  repeat (split; [solve [auto]|]).
  intros a w' E. injection E as _ <-. exact Hp.
Qed.

Lemma spec_sleep n P : spec P (sleep n) (fun _ => P).
Proof.
  intros w lk Hp. exists [Sleep n]. simpl.
  repeat (split; [solve [auto]|]).
  intros a w' E. injection E as _ <-. exact Hp.
Qed.

Lemma spec_get_header :
  spec any _get_auth_header (fun a lk c => a = c /\ c <> None /\ lk = true).
Proof.
  intros w lk _.
  destruct (get_header_sound w) as (es & Hlog & Hev & Ha & _ & _ & Hl & Hok).
  exists es. repeat (split; [solve [auto using fresh_stdin]|]).
  intros a w' E. destruct (Hok a w' E) as (-> & Hne & Hlk).
  repeat split; auto. apply flag_stdin; assumption.
Qed.

Lemma world_of_answer srv w :
  log (world_of (answer srv w)) = log w /\
  _auth_header (world_of (answer srv w)) = _auth_header w /\
  lines (world_of (answer srv w)) = lines w.
Proof.
  unfold answer. destruct srv as [|x rest]; [auto|].
  destruct (reply x); auto.
Qed.

Lemma spec_requests_get b g h srv :
  spec (fun lk c => h = c /\ c <> None /\ lk = true)
       (requests_get b g h srv) (fun _ => any).
Proof.
  intros w lk (Hh & Hne & Hlk). exists [HttpGet b g h].
  unfold requests_get.
  destruct (world_of_answer srv (emit (HttpGet b g h) w)) as (-> & -> & ->).
  simpl. repeat split; auto.
Qed.

Lemma spec_requests_patch b g h json :
  spec (fun lk c => h = c /\ c <> None /\ lk = true)
       (requests_patch b g h json) (fun _ => any).
Proof.
  intros w lk (Hh & Hne & Hlk). exists [HttpPatch b g h json].
  unfold requests_patch.
  destruct (world_of_answer (server w) (emit (HttpPatch b g h json) w))
    as (-> & -> & ->).
  simpl. repeat split; auto.
Qed.

Lemma poll_unfold b g srv :
  poll b g srv =
    (sleep 10 ;;
     headers <- _get_auth_header ;;
     resp <- requests_get b g headers srv ;;
     raise_for_status resp ;;
     op <- json_last_operation resp ;;
     if pystr_eqb (state op) (lit "succeeded") then print Succeeded
     else if pystr_eqb (state op) (lit "failed") then
       d <- json_description op ;; print (Description d) ;; sys_exit 8
     else
       print Dot ;;
       match srv with
       | [] => (fun w => Blocked w)
       | _ :: rest => poll b g rest
       end).
Proof. destruct srv; reflexivity. Qed.

Lemma spec_raise_for_status resp :
  spec any (raise_for_status resp) (fun _ => any).
Proof.
  apply spec_silent. intros w. unfold raise_for_status.
  destruct (_ && _)%bool; reflexivity.
Qed.

(** One step of a proof by the rules: the first action, then the rest. *)
Ltac step rule := eapply spec_bind; [apply rule|intros ?].

Lemma spec_poll b g srv : spec any (poll b g srv) (fun _ => any).
Proof.
  induction srv as [|x rest IH]; rewrite poll_unfold.
  all: step spec_sleep; step spec_get_header; step spec_requests_get;
       step spec_raise_for_status;
       (eapply spec_bind;
        [apply spec_silent with (P := any); intros w;
         unfold json_last_operation; destruct (snd _); reflexivity
        |intros op]);
       destruct (pystr_eqb (state op) (lit "succeeded"));
       [apply spec_print|];
       destruct (pystr_eqb (state op) (lit "failed"));
       [eapply spec_bind;
        [apply spec_silent with (P := any); intros w;
         unfold json_description; destruct (description op); reflexivity
        |intros d; step spec_print; apply spec_silent; reflexivity]
       |step spec_print].
  - apply spec_silent. reflexivity.
  - exact IH.
Qed.

Lemma spec_wait_for_success b g :
  spec any (_wait_for_success b g) (fun _ => any).
Proof. intros w lk H. exact (@spec_poll b g (server w) w lk H). Qed.

Lemma spec_for_each {A} (xs : list A) (body : A -> M unit) :
  (forall x, spec any (body x) (fun _ => any)) ->
  spec any (for_each xs body) (fun _ => any).
Proof.
  intros Hb. induction xs as [|x xs IH]; simpl.
  - apply spec_silent. reflexivity.
  - eapply spec_bind; [apply Hb|intros ?; exact IH].
Qed.

Lemma spec_test_extensions b g plan :
  spec any (test_extensions b g plan) (fun _ => any).
Proof.
  unfold test_extensions. apply spec_for_each. intros extension_set.
  eapply spec_bind; [|intros ?]; apply spec_for_each; intros extension;
    step spec_print; step spec_get_header; step spec_requests_patch;
    step spec_raise_for_status; apply spec_wait_for_success.
Qed.

(** ** One turn of the polling loop *)

Lemma poll_turn b g x rest w h w1 :
  _get_auth_header (emit (Sleep 10) w) = Ok h w1 ->
  let w2 := advance x rest (emit (HttpGet b g h) w1) in
  poll b g (x :: rest) w =
    match reply x with
    | ConnectionFailed => Raised ConnectionError w2
    | Response c body =>
        if status_ok c then
          match body with
          | None => Raised KeyError w2
          | Some op =>
              if pystr_eqb (state op) (lit "succeeded") then
                Ok tt (emit (Print Succeeded) w2)
              else if pystr_eqb (state op) (lit "failed") then
                match description op with
                | Some d =>
                    Raised (SystemExit 8) (emit (Print (Description d)) w2)
                | None => Raised KeyError w2
                end
              else poll b g rest (emit (Print Dot) w2)
          end
        else Raised HTTPError w2
    end.
Proof.
  intros H w2. rewrite poll_unfold.
  unfold bind, sleep, requests_get, answer, raise_for_status,
    json_last_operation, json_description, status_ok, print, sys_exit, raise,
    ret.
  cbv beta iota. rewrite H. cbv beta iota. fold w2.
  destruct (reply x) as [|c body]; [reflexivity|]. cbn [fst snd].
  destruct ((400 <=? c) && (c <? 600))%Z; cbn [negb]; [reflexivity|].
  destruct body as [op|]; [|reflexivity].
  destruct (pystr_eqb (state op) (lit "succeeded")); [reflexivity|].
  destruct (pystr_eqb (state op) (lit "failed")); [|reflexivity].
  destruct (description op); reflexivity.
Qed.

Lemma observed_reply x op :
  observed x = Some op ->
  exists c, reply x = Response c (Some op) /\ status_ok c = true.
Proof.
  unfold observed. destruct (reply x) as [|c [o|]]; try discriminate.
  destruct (status_ok c) eqn:S; [|discriminate].
  intros E. injection E as ->. eauto.
Qed.

Lemma pystr_eqb_eq a b : pystr_eqb a b = true <-> a = b.
Proof.
  unfold pystr_eqb. destruct (pystr_eq_dec a b); split; auto; discriminate.
Qed.

Lemma pystr_eqb_neq a b : pystr_eqb a b = false <-> a <> b.
Proof.
  unfold pystr_eqb. destruct (pystr_eq_dec a b); split; auto;
    try discriminate; contradiction.
Qed.

(** ** A stream which serves *)

Lemma requests_app l1 l2 : requests (l1 ++ l2) = requests l1 ++ requests l2.
Proof. apply flat_map_app. Qed.

Lemma requests_emit e w :
  requests (log (emit e w)) = requests (log w) ++ request_of e.
Proof.
  unfold emit. cbn [log]. rewrite requests_app. unfold requests at 2.
  simpl. rewrite app_nil_r. reflexivity.
Qed.

Lemma requests_stdin es : forallb stdin_event es = true -> requests es = [].
Proof.
  induction es as [|e es IH]; [reflexivity|]. simpl. intros H.
  apply andb_true_iff in H as [He H]. rewrite (IH H).
  destruct e as [| | o | | |]; try discriminate He; reflexivity.
Qed.

Lemma first_nonblank ls :
  existsb (fun l => negb (blank l)) ls = true ->
  exists blanks raw rest,
    ls = blanks ++ raw :: rest /\
    Forall (fun l => blank l = true) blanks /\ blank raw = false.
Proof.
  induction ls as [|l ls IH]; [discriminate|]. simpl.
  destruct (blank l) eqn:B; simpl.
  - intros H. destruct (IH H) as (blanks & raw & rest & -> & Hb & Hr).
    exists (l :: blanks), raw, rest. repeat split; auto.
  - intros _. exists [], l, ls. repeat split; auto.
Qed.

Lemma get_header_returns w :
  tokens_ok w -> exists a w', _get_auth_header w = Ok a w'.
Proof.
  intros [Hc Ht]. destruct (_auth_header w) as [h|] eqn:Hh.
  - destruct (readable w) eqn:R.
    + destruct (lines w) as [|raw rest] eqn:Hl.
      * unfold readable in R. rewrite Hl in R. congruence.
      * assert (Ha : avail w <> 0).
        { unfold readable in R. rewrite Hl in R. intros E. rewrite E in R.
          discriminate R. }
        rewrite (get_header_refresh w Hh Hl Ha). eauto.
    + rewrite (get_header_idle w Hh R). eauto.
  - destruct (first_nonblank _ (Ht eq_refl)) as (blanks & raw & rest & Hl & Hb & Hr).
    destruct (@get_header_first w blanks raw rest Hh Hl Hb Hr)
      as (w' & es & b & E & _).
    rewrite E. eauto.
Qed.

Lemma get_header_ok w :
  tokens_ok w ->
  exists h w',
    _get_auth_header w = Ok (Some h) w' /\ tokens_ok w' /\
    server w' = server w /\ requests (log w') = requests (log w).
Proof.
  intros Hok. destruct (get_header_returns Hok) as (a & w' & E).
  destruct (get_header_sound w) as (es & Hlog & Hev & _ & Hsrv & Hcl & _ & Hret).
  destruct (Hret a w' E) as (Ha & Hne & _).
  rewrite E in Hlog, Hsrv, Hcl. simpl in Hlog, Hsrv, Hcl.
  destruct a as [h|]; [|contradiction].
  exists h, w'. repeat split; auto.
  - rewrite Hcl. apply Hok.
  - intros Hn. congruence.
  - rewrite Hlog, requests_app, (requests_stdin _ Hev). apply app_nil_r.
Qed.

(** ** The polling loop against a script *)

Section Polling.
Variables b g : pystr.

(** The loop waits for ever for an answer which does not come. *)
Lemma poll_starved w :
  tokens_ok w ->
  exists w', poll b g [] w = Blocked w' /\
    requests (log w') = requests (log w) ++ [Poll].
Proof.
  intros Hok.
  assert (Hok' : tokens_ok (emit (Sleep 10) w)) by exact Hok.
  destruct (get_header_ok Hok') as (h & w1 & E & _ & _ & Hreq).
  exists (emit (HttpGet b g (Some h)) w1).
  rewrite poll_unfold. unfold bind, sleep, requests_get, answer.
  cbv beta iota. rewrite E. split; [reflexivity|].
  rewrite requests_emit, Hreq, requests_emit. simpl.
  rewrite app_nil_r. reflexivity.
Qed.

(** What one answered poll leaves, before the state is looked at. *)
Lemma poll_answered x rest w :
  tokens_ok w ->
  exists h w1,
    _get_auth_header (emit (Sleep 10) w) = Ok (Some h) w1 /\
    let w2 := advance x rest (emit (HttpGet b g (Some h)) w1) in
    tokens_ok w2 /\ server w2 = rest /\
    requests (log w2) = requests (log w) ++ [Poll] /\
    exists l, log w2 = l ++ [HttpGet b g (Some h)].
Proof.
  intros Hok.
  assert (Hok' : tokens_ok (emit (Sleep 10) w)) by exact Hok.
  destruct (get_header_ok Hok') as (h & w1 & E & Hok1 & _ & Hreq).
  exists h, w1. split; [exact E|]. simpl. repeat split.
  - apply Hok1.
  - apply Hok1.
  - change (requests (log (emit (HttpGet b g (Some h)) w1)) =
            requests (log w) ++ [Poll]).
    rewrite requests_emit, Hreq, requests_emit. simpl.
    rewrite app_nil_r. reflexivity.
  - eauto.
Qed.

Lemma in_progress_observed x :
  in_progress x = true ->
  exists op, observed x = Some op /\
    pystr_eqb (state op) (lit "succeeded") = false /\
    pystr_eqb (state op) (lit "failed") = false.
Proof.
  unfold in_progress, terminal. destruct (observed x) as [op|]; [|discriminate].
  intros H. apply negb_true_iff, orb_false_iff in H. eauto.
Qed.

(** Polls which see the operation in progress are passed, one dot each. *)
Lemma poll_skip pend : forall tail w,
  tokens_ok w -> forallb in_progress pend = true ->
  exists w1,
    poll b g (pend ++ tail) w = poll b g tail w1 /\ tokens_ok w1 /\
    requests (log w1) = requests (log w) ++ repeat Poll (length pend).
Proof.
  induction pend as [|x pend IH]; intros tail w Hok Hp.
  - exists w. simpl. rewrite app_nil_r. auto.
  - simpl in Hp. apply andb_true_iff in Hp as [Hx Hp].
    destruct (in_progress_observed x Hx) as (op & Hobs & Hs & Hf).
    destruct (observed_reply x Hobs) as (c & Hr & Hc).
    destruct (poll_answered x (pend ++ tail) Hok)
      as (h & w1 & E & Hok2 & _ & Hreq & _).
    rewrite <- app_comm_cons.
    rewrite (poll_turn b g x (pend ++ tail) w E), Hr, Hc, Hs, Hf.
    set (w2 := advance _ _ _) in *.
    destruct (IH tail (emit (Print Dot) w2)) as (w3 & E3 & Hok3 & Hreq3); auto.
    exists w3. rewrite E3. repeat split; [apply Hok3|apply Hok3|].
    rewrite Hreq3, requests_emit, Hreq. simpl.
    rewrite app_nil_r, <- app_assoc. reflexivity.
Qed.

Lemma poll_succeeded x rest w :
  tokens_ok w -> succeeds x = true ->
  exists w',
    poll b g (x :: rest) w = Ok tt w' /\ tokens_ok w' /\ server w' = rest /\
    requests (log w') = requests (log w) ++ [Poll].
Proof.
  intros Hok Hx. unfold succeeds in Hx.
  destruct (observed x) as [op|] eqn:Hobs; [|discriminate].
  destruct (observed_reply x Hobs) as (c & Hr & Hc).
  destruct (poll_answered x rest Hok) as (h & w1 & E & Hok2 & Hsrv & Hreq & _).
  rewrite (poll_turn b g x rest w E), Hr, Hc, Hx.
  eexists. split; [reflexivity|]. repeat split; try apply Hok2; auto.
  rewrite requests_emit, Hreq. simpl. apply app_nil_r.
Qed.

Lemma poll_failed x rest w op d :
  tokens_ok w -> observed x = Some op -> state op = lit "failed" ->
  description op = Some d ->
  exists w' l h,
    poll b g (x :: rest) w = Raised (SystemExit 8) w' /\ server w' = rest /\
    requests (log w') = requests (log w) ++ [Poll] /\
    log w' = l ++ [HttpGet b g h; Print (Description d)].
Proof.
  intros Hok Hobs Hst Hd.
  destruct (observed_reply x Hobs) as (c & Hr & Hc).
  destruct (poll_answered x rest Hok)
    as (h & w1 & E & Hok2 & Hsrv & Hreq & l & Hl).
  rewrite (poll_turn b g x rest w E), Hr, Hc, Hst, Hd.
  exists (emit (Print (Description d))
            (advance x rest (emit (HttpGet b g (Some h)) w1))), l, (Some h).
  split; [reflexivity|]. repeat split; auto.
  - rewrite requests_emit, Hreq. simpl. apply app_nil_r.
  - simpl. simpl in Hl. rewrite Hl, <- app_assoc. reflexivity.
Qed.
End Polling.

(** ** The outcome of the polling loop *)

Lemma terminal_cases st :
  terminal st = true -> st = lit "succeeded" \/ st = lit "failed".
Proof.
  unfold terminal. intros H. apply orb_true_iff in H as [H|H];
    apply pystr_eqb_eq in H; auto.
Qed.

Lemma first_terminal (ops : list last_operation) :
  forallb (fun op => negb (terminal (state op))) ops = true \/
  exists pend op rest,
    ops = pend ++ op :: rest /\
    forallb (fun op => negb (terminal (state op))) pend = true /\
    terminal (state op) = true.
Proof.
  induction ops as [|op ops IH]; [left; reflexivity|].
  destruct (terminal (state op)) eqn:T.
  - right. exists [], op, ops. auto.
  - destruct IH as [IH|(pend & op' & rest & -> & Hp & Ht)].
    + left. simpl. rewrite T. exact IH.
    + right. exists (op :: pend), op', rest. simpl. rewrite T. auto.
Qed.

Lemma nth_error_nonterminal pend n st :
  forallb (fun op => negb (terminal (state op))) pend = true ->
  nth_error (map state pend) n = Some st -> terminal st = false.
Proof.
  intros Hp Hn. apply nth_error_In, in_map_iff in Hn as (op & <- & Hin).
  rewrite forallb_forall in Hp. apply negb_true_iff, Hp, Hin.
Qed.

(** The first terminal state decides which of the two is reached. *)
Lemma reaches_first pend op rest goal other :
  forallb (fun op => negb (terminal (state op))) pend = true ->
  state op = goal -> terminal goal = true -> terminal other = true ->
  goal <> other ->
  reaches goal other (map state (pend ++ op :: rest)) /\
  ~ reaches other goal (map state (pend ++ op :: rest)).
Proof.
  intros Hp Hop Tg To Hne. rewrite map_app. simpl. split.
  - exists (length pend). split.
    + rewrite nth_error_app2 by (rewrite length_map; lia).
      rewrite length_map, Nat.sub_diag. simpl. congruence.
    + intros m Hm E. rewrite nth_error_app1 in E by (rewrite length_map; lia).
      apply (nth_error_nonterminal pend m Hp) in E. congruence.
  - intros (n & Hn & Hbefore).
    destruct (Nat.lt_trichotomy n (length pend)) as [Hlt|[->|Hgt]].
    + rewrite nth_error_app1 in Hn by (rewrite length_map; lia).
      apply (nth_error_nonterminal pend n Hp) in Hn. congruence.
    + rewrite nth_error_app2 in Hn by (rewrite length_map; lia).
      rewrite length_map, Nat.sub_diag in Hn. simpl in Hn. congruence.
    + apply (Hbefore (length pend) Hgt).
      rewrite nth_error_app2 by (rewrite length_map; lia).
      rewrite length_map, Nat.sub_diag. simpl. congruence.
Qed.

Lemma reaches_none ops goal other :
  forallb (fun op => negb (terminal (state op))) ops = true ->
  terminal goal = true -> ~ reaches goal other (map state ops).
Proof.
  intros Hp Tg (n & Hn & _).
  apply (nth_error_nonterminal ops n Hp) in Hn. congruence.
Qed.

Lemma observed_in_progress xs pend :
  map observed xs = map Some pend ->
  forallb (fun op => negb (terminal (state op))) pend = true ->
  forallb in_progress xs = true.
Proof.
  revert pend. induction xs as [|x xs IH]; intros [|op pend] E Hp;
    try discriminate; [reflexivity|].
  simpl in *. injection E as Ex E. apply andb_true_iff in Hp as [Hop Hp].
  unfold in_progress at 1. rewrite Ex, Hop. simpl. eauto.
Qed.

(** The three ways a wait against answered polls can go. *)
Lemma wait_outcome b g w ops :
  tokens_ok w -> map observed (server w) = map Some ops ->
  (forall op, In op ops -> state op = lit "failed" -> description op <> None) ->
  (forallb (fun op => negb (terminal (state op))) ops = true /\
   exists w', _wait_for_success b g w = Blocked w') \/
  (reaches (lit "succeeded") (lit "failed") (map state ops) /\
   ~ reaches (lit "failed") (lit "succeeded") (map state ops) /\
   exists w', _wait_for_success b g w = Ok tt w') \/
  (reaches (lit "failed") (lit "succeeded") (map state ops) /\
   ~ reaches (lit "succeeded") (lit "failed") (map state ops) /\
   exists w' l op d,
     _wait_for_success b g w = Raised (SystemExit 8) w' /\
     In op ops /\ state op = lit "failed" /\ description op = Some d /\
     log w' = l ++ [Print (Description d)]).
Proof.
  intros Hok Hsrv Hdesc. unfold _wait_for_success.
  destruct (first_terminal ops) as [Hall|(pend & op & rest & -> & Hp & Ht)].
  - left. split; [exact Hall|].
    pose proof (observed_in_progress _ _ Hsrv Hall) as Hxs.
    destruct (poll_skip b g (server w) [] Hok Hxs) as (w1 & E & Hok1 & _).
    rewrite app_nil_r in E. rewrite E.
    destruct (poll_starved b g Hok1) as (w' & E' & _). eauto.
  - right.
    rewrite map_app in Hsrv. apply map_eq_app in Hsrv
      as (xp & xr & Hw & Hxp & Hxr).
    destruct xr as [|x xr]; [discriminate|]. simpl in Hxr.
    injection Hxr as Hx Hxr.
    pose proof (observed_in_progress _ _ Hxp Hp) as Hxs.
    destruct (poll_skip b g xp (x :: xr) Hok Hxs) as (w1 & E & Hok1 & _).
    rewrite Hw, E.
    destruct (terminal_cases _ Ht) as [Hs|Hf].
    + left.
      destruct (@reaches_first pend op rest _ (lit "failed") Hp Hs)
        as [R NR]; [reflexivity|reflexivity|discriminate|].
      repeat split; auto.
      destruct (poll_succeeded b g x xr Hok1) as (w' & E' & _).
      { unfold succeeds. rewrite Hx, Hs. reflexivity. }
      eauto.
    + right.
      destruct (@reaches_first pend op rest _ (lit "succeeded") Hp Hf)
        as [R NR]; [reflexivity|reflexivity|discriminate|].
      repeat split; auto.
      destruct (description op) as [d|] eqn:Hd.
      * destruct (poll_failed b g x xr Hok1 Hx Hf Hd)
          as (w' & l & h & E' & _ & _ & Hlog).
        exists w', (l ++ [HttpGet b g h]), op, d.
        rewrite <- app_assoc. repeat split; auto.
        apply in_or_app. right. left. reflexivity.
      * exfalso. apply (Hdesc op); auto.
        apply in_or_app. right. left. reflexivity.
Qed.

(** ** The operation waiter: the claims *)

(** C2: against polls which are answered with the states of [ops],
    [_wait_for_success] returns exactly when the states hold "succeeded"
    with no "failed" before it, and it prints the description the service
    supplied and leaves through [sys.exit(8)] exactly when they hold
    "failed" with no "succeeded" before it. *)
Theorem wait_outcome_iff (b g : pystr) (w : world)
    (ops : list last_operation) :
  tokens_ok w -> map observed (server w) = map Some ops ->
  (forall op, In op ops -> state op = lit "failed" -> description op <> None) ->
  ((exists w', _wait_for_success b g w = Ok tt w') <->
   reaches (lit "succeeded") (lit "failed") (map state ops)) /\
  ((exists w' l op d,
      _wait_for_success b g w = Raised (SystemExit 8) w' /\
      In op ops /\ state op = lit "failed" /\ description op = Some d /\
      log w' = l ++ [Print (Description d)]) <->
   reaches (lit "failed") (lit "succeeded") (map state ops)).
Proof.
  intros Hok Hsrv Hdesc.
  destruct (@wait_outcome b g w ops Hok Hsrv Hdesc)
    as [(Hall & w' & E)|[(R & NR & w' & E)|(R & NR & w' & l & op & d & E & H)]].
  - split; split.
    + intros (w0 & E0). rewrite E in E0. discriminate E0.
    + intros R. exfalso. revert R. apply reaches_none; auto.
    + intros (w0 & l & op & d & E0 & _). rewrite E in E0. discriminate E0.
    + intros R. exfalso. revert R. apply reaches_none; auto.
  - split; split; auto.
    + eauto.
    + intros (w0 & l & op & d & E0 & _). rewrite E in E0. discriminate E0.
    + contradiction.
  - split; split; auto.
    + intros (w0 & E0). rewrite E in E0. discriminate E0.
    + contradiction.
    + intros _. exists w', l, op, d. auto.
Qed.

Lemma wait_outcome_iff_witness :
  exists w', _wait_for_success (lit "https://api") (lit "guid") polling = Ok tt w'.
Proof.
  assert (Hok : tokens_ok polling) by (split; [reflexivity|discriminate]).
  destruct (@wait_outcome_iff (lit "https://api") (lit "guid") polling
              [mkOp (lit "in progress") None; mkOp (lit "succeeded") None]
              Hok eq_refl) as [[_ H] _].
  - intros op [<-|[<-|[]]] E; discriminate E.
  - apply H. exists 1. split; [reflexivity|].
    intros m Hm. assert (m = 0) as -> by lia. discriminate.
Defined.

(** C6: a poll which sees a state other than "succeeded" and "failed"
    ends nothing: the loop prints one dot and goes on as from its start
    with the exchanges which remain; and as long as the polls see only
    such states the call does not come back. *)
Theorem unrecognized_state_keeps_polling (b g : pystr) (w : world)
    (x : exchange) (rest : list exchange) (op : last_operation) :
  tokens_ok w -> server w = x :: rest -> observed x = Some op ->
  state op <> lit "succeeded" -> state op <> lit "failed" ->
  (exists h w1,
     _get_auth_header (emit (Sleep 10) w) = Ok h w1 /\
     _wait_for_success b g w =
       _wait_for_success b g
         (emit (Print Dot) (advance x rest (emit (HttpGet b g h) w1)))) /\
  (forallb in_progress rest = true ->
   exists w', _wait_for_success b g w = Blocked w').
Proof.
  intros Hok Hsrv Hobs Hs Hf.
  apply pystr_eqb_neq in Hs, Hf.
  destruct (observed_reply x Hobs) as (c & Hr & Hc).
  split.
  - destruct (@poll_answered b g x rest w Hok) as (h & w1 & E & _).
    exists (Some h), w1. split; [exact E|].
    unfold _wait_for_success. rewrite Hsrv.
    rewrite (poll_turn b g x rest w E), Hr, Hc, Hs, Hf. reflexivity.
  - intros Hrest.
    assert (Hall : forallb in_progress (x :: rest) = true).
    { simpl. rewrite Hrest. unfold in_progress, terminal.
      rewrite Hobs, Hs, Hf. reflexivity. }
    destruct (@poll_skip b g (x :: rest) [] w Hok Hall) as (w1 & E & Hok1 & _).
    rewrite app_nil_r in E.
    destruct (@poll_starved b g w1 Hok1) as (w' & E' & _).
    exists w'. unfold _wait_for_success. rewrite Hsrv, E. exact E'.
Qed.

Lemma unrecognized_state_keeps_polling_witness :
  exists h w1,
    _get_auth_header (emit (Sleep 10) polling) = Ok h w1 /\
    _wait_for_success (lit "https://api") (lit "guid") polling =
      _wait_for_success (lit "https://api") (lit "guid")
        (emit (Print Dot)
           (advance
              (mkExchange
                 (Response 200 (Some (mkOp (lit "in progress") None))) 0)
              [mkExchange (Response 200 (Some (mkOp (lit "succeeded") None))) 0]
              (emit (HttpGet (lit "https://api") (lit "guid") h) w1))).
Proof.
  assert (Hok : tokens_ok polling) by (split; [reflexivity|discriminate]).
  apply (@unrecognized_state_keeps_polling (lit "https://api") (lit "guid")
           polling _ _ (mkOp (lit "in progress") None) Hok eq_refl eq_refl);
    discriminate.
Defined.

(** ** The sequencer as one loop over the state changes *)

Lemma bind_congr {A B} (m m' : M A) (k k' : A -> M B) w :
  m w = m' w -> (forall a w', k a w' = k' a w') ->
  bind m k w = bind m' k' w.
Proof.
  intros Hm Hk. unfold bind. rewrite Hm. destruct (m' w); auto.
Qed.

Lemma for_each_app {A} (xs ys : list A) (body : A -> M unit) : forall w,
  for_each (xs ++ ys) body w = (for_each xs body ;; for_each ys body) w.
Proof.
  induction xs as [|x xs IH]; intros w; [reflexivity|].
  simpl. unfold bind. destruct (body x w) as [[] w'|e w'|w']; auto.
Qed.

Lemma for_each_map {A B} (f : A -> B) (xs : list A) (body : B -> M unit) :
  forall w, for_each (map f xs) body w = for_each xs (fun a => body (f a)) w.
Proof.
  induction xs as [|x xs IH]; intros w; [reflexivity|].
  simpl. apply bind_congr; auto.
Qed.

Lemma test_extensions_toggles b g plan : forall w,
  test_extensions b g plan w = for_each (toggles plan) (perform b g) w.
Proof.
  unfold test_extensions.
  induction plan as [|extension_set plan IH]; intros w; [reflexivity|].
  cbn [for_each toggles flat_map]. rewrite for_each_app.
  apply bind_congr; [|intros _ w'; apply IH].
  rewrite for_each_app.
  apply bind_congr; [|intros _ w']; rewrite for_each_map; reflexivity.
Qed.

Section Sequencer.
Variables b g : pystr.

(** The state change is sent and answered; what follows depends on the
    status of the answer. *)
Lemma perform_sent t p tail w :
  tokens_ok w -> server w = p :: tail ->
  exists h w1,
    _get_auth_header (emit (Print (announcement t)) w) = Ok (Some h) w1 /\
    let w2 := advance p tail (emit (HttpPatch b g (Some h) (payload t)) w1) in
    tokens_ok w2 /\ server w2 = tail /\
    requests (log w2) = requests (log w) ++ [Change (payload t)] /\
    perform b g t w =
      match reply p with
      | ConnectionFailed => Raised ConnectionError w2
      | Response c _ =>
          if status_ok c then _wait_for_success b g w2
          else Raised HTTPError w2
      end.
Proof.
  intros Hok Hsrv.
  assert (Hok' : tokens_ok (emit (Print (announcement t)) w)) by exact Hok.
  destruct (get_header_ok Hok') as (h & w1 & E & Hok1 & Hsrv1 & Hreq).
  exists h, w1. split; [exact E|]. cbv zeta. repeat split.
  - apply Hok1.
  - apply Hok1.
  - change (requests (log (emit (HttpPatch b g (Some h) (payload t)) w1)) =
            requests (log w) ++ [Change (payload t)]).
    rewrite requests_emit, Hreq, requests_emit. simpl.
    rewrite app_nil_r. reflexivity.
  - unfold perform, bind, print, requests_patch, answer, raise_for_status,
      status_ok, raise, ret.
    cbv beta iota. rewrite E. cbv beta iota.
    change (server (emit (HttpPatch b g (Some h) (payload t)) w1))
      with (server w1).
    rewrite Hsrv1. change (server (emit (Print (announcement t)) w))
      with (server w). rewrite Hsrv.
    destruct (reply p) as [|c body]; [reflexivity|]. cbn [fst].
    destruct ((400 <=? c) && (c <? 600))%Z; reflexivity.
Qed.

Lemma converges_shape xs :
  converges xs = true ->
  exists p pend s,
    xs = p :: pend ++ [s] /\ accepted p = true /\
    forallb in_progress pend = true /\ succeeds s = true.
Proof.
  destruct xs as [|p polls]; [discriminate|]. simpl. intros H.
  apply andb_true_iff in H as [Hp H].
  destruct (rev polls) as [|s pend'] eqn:R; [discriminate|].
  apply andb_true_iff in H as [Hs Hpend].
  exists p, (rev pend'), s.
  assert (polls = rev pend' ++ [s]) as ->.
  { rewrite <- (rev_involutive polls), R. reflexivity. }
  repeat split; auto.
  apply forallb_forall. intros x Hx. apply in_rev in Hx.
  rewrite forallb_forall in Hpend. auto.
Qed.

Lemma accepted_reply p :
  accepted p = true -> exists c body, reply p = Response c body /\ status_ok c = true.
Proof.
  unfold accepted. destruct (reply p) as [|c body]; [discriminate|]. eauto.
Qed.

Lemma perform_converges t xs rest w :
  tokens_ok w -> server w = xs ++ rest -> converges xs = true ->
  exists w',
    perform b g t w = Ok tt w' /\ tokens_ok w' /\ server w' = rest /\
    requests (log w') =
      requests (log w) ++ Change (payload t) :: repeat Poll (pred (length xs)).
Proof.
  intros Hok Hsrv Hxs.
  destruct (converges_shape xs Hxs) as (p & pend & s & -> & Hp & Hpend & Hs).
  destruct (accepted_reply p Hp) as (c & body & Hr & Hc).
  rewrite <- app_comm_cons, <- app_assoc in Hsrv.
  destruct (@perform_sent t p _ w Hok Hsrv)
    as (h & w1 & _ & Hok2 & Hsrv2 & Hreq2 & E).
  rewrite E, Hr, Hc. unfold _wait_for_success. rewrite Hsrv2.
  set (w2 := advance _ _ _) in *.
  destruct (@poll_skip b g pend ([s] ++ rest) w2 Hok2 Hpend)
    as (w3 & E3 & Hok3 & Hreq3).
  rewrite E3.
  destruct (@poll_succeeded b g s rest w3 Hok3 Hs)
    as (w' & E' & Hok' & Hsrv' & Hreq').
  exists w'. split; [exact E'|]. repeat split; try apply Hok'; auto.
  rewrite Hreq', Hreq3, Hreq2. simpl. rewrite length_app. simpl.
  rewrite <- !app_assoc. simpl. f_equal. f_equal.
  replace (length pend + 1) with (S (length pend)) by lia.
  rewrite <- repeat_cons. reflexivity.
Qed.

Lemma perform_fails t p pend f rest w op d :
  tokens_ok w -> server w = p :: pend ++ f :: rest -> accepted p = true ->
  forallb in_progress pend = true -> observed f = Some op ->
  state op = lit "failed" -> description op = Some d ->
  exists w' l h,
    perform b g t w = Raised (SystemExit 8) w' /\ server w' = rest /\
    requests (log w') =
      requests (log w) ++ Change (payload t) :: repeat Poll (S (length pend)) /\
    log w' = l ++ [HttpGet b g h; Print (Description d)].
Proof.
  intros Hok Hsrv Hp Hpend Hobs Hst Hd.
  destruct (accepted_reply p Hp) as (c & body & Hr & Hc).
  destruct (@perform_sent t p _ w Hok Hsrv)
    as (h & w1 & _ & Hok2 & Hsrv2 & Hreq2 & E).
  rewrite E, Hr, Hc. unfold _wait_for_success. rewrite Hsrv2.
  set (w2 := advance _ _ _) in *.
  destruct (@poll_skip b g pend (f :: rest) w2 Hok2 Hpend)
    as (w3 & E3 & Hok3 & Hreq3).
  rewrite E3.
  destruct (@poll_failed b g f rest w3 op d Hok3 Hobs Hst Hd)
    as (w' & l & h' & E' & Hsrv' & Hreq' & Hlog).
  exists w', l, h'. split; [exact E'|]. repeat split; auto.
  rewrite Hreq', Hreq3, Hreq2. rewrite <- !app_assoc. simpl.
  f_equal. f_equal. rewrite <- repeat_cons. reflexivity.
Qed.

(** The state changes [ts] converge one after the other. *)
Lemma run_converges ts : forall scripts rest todo w,
  tokens_ok w -> forallb converges scripts = true ->
  length scripts = length ts -> server w = concat scripts ++ rest ->
  exists w1,
    for_each (ts ++ todo) (perform b g) w = for_each todo (perform b g) w1 /\
    tokens_ok w1 /\ server w1 = rest /\
    requests (log w1) = requests (log w) ++ expected ts scripts.
Proof.
  induction ts as [|t ts IH]; intros scripts rest todo w Hok Hsc Hlen Hsrv.
  - destruct scripts; [|discriminate]. exists w. simpl.
    rewrite app_nil_r. auto.
  - destruct scripts as [|xs scripts]; [discriminate|].
    simpl in Hsc. apply andb_true_iff in Hsc as [Hxs Hsc].
    simpl in Hsrv. rewrite <- app_assoc in Hsrv.
    destruct (@perform_converges t xs _ w Hok Hsrv Hxs)
      as (w' & E & Hok' & Hsrv' & Hreq').
    destruct (IH scripts rest todo w' Hok' Hsc) as (w1 & E1 & Hok1 & Hsrv1 & Hreq1);
      [simpl in Hlen; lia|exact Hsrv'|].
    exists w1. rewrite <- app_comm_cons. cbn [for_each]. unfold bind at 1.
    rewrite E, E1. repeat split; try apply Hok1; auto.
    rewrite Hreq1, Hreq'. simpl. rewrite <- !app_assoc. reflexivity.
Qed.
End Sequencer.

(** ** The sequencer: the claims *)

(** C1: when every operation of the plan converges, the run returns
    (exit status 0) and its requests are, for the state changes of the
    plan in order, the change followed by its polls; the state changes of
    a set [A, B] are: enable A, enable B, disable B, disable A. *)
Theorem converging_run_order (b g : pystr) (plan : list (list pystr))
    (scripts : list (list exchange)) (rest : list exchange) (w : world) :
  tokens_ok w -> forallb converges scripts = true ->
  length scripts = length (toggles plan) ->
  server w = concat scripts ++ rest ->
  (exists w',
     test_extensions b g plan w = Ok tt w' /\
     exit_status (test_extensions b g plan w) = Some 0%Z /\
     server w' = rest /\
     requests (log w') = requests (log w) ++ expected (toggles plan) scripts) /\
  (forall before A B after,
     toggles (before ++ [A; B] :: after) =
       toggles before ++ [Enable A; Enable B; Disable B; Disable A] ++
       toggles after).
Proof.
  intros Hok Hsc Hlen Hsrv. split.
  - destruct (@run_converges b g (toggles plan) scripts rest [] w Hok Hsc Hlen Hsrv)
      as (w1 & E & _ & Hsrv1 & Hreq).
    rewrite app_nil_r in E.
    exists w1. rewrite test_extensions_toggles, E. auto.
  - intros before A B after. unfold toggles.
    rewrite flat_map_app. reflexivity.
Qed.

Lemma converging_run_order_witness :
  exists w',
    test_extensions (lit "https://api") (lit "guid") the_plan scenario_success
      = Ok tt w' /\
    server w' = [] /\
    requests (log w') =
      [Change (enable_extensions [lit "pg_trgm"] true); Poll; Poll;
       Change (enable_extensions [lit "hstore"] true); Poll; Poll;
       Change (disable_extensions [lit "hstore"] true); Poll; Poll;
       Change (disable_extensions [lit "pg_trgm"] true); Poll; Poll].
Proof.
  assert (Hok : tokens_ok scenario_success).
  { split; [reflexivity|]. intros _. reflexivity. }
  destruct (@converging_run_order (lit "https://api") (lit "guid") the_plan
              [converging; converging; converging; converging] []
              scenario_success Hok eq_refl eq_refl eq_refl)
    as [(w' & E & _ & Hsrv & Hreq) _].
  exists w'. split; [exact E|]. split; [exact Hsrv|]. exact Hreq.
Defined.

(** C4: when a poll sees "failed", the run prints the description the
    service supplied and leaves with exit status 8, which is neither the
    0 of a run which returns nor the 1 of an uncaught exception; the poll
    is its last request: the state changes still to come are not sent. *)
Theorem failed_operation_aborts (b g : pystr) (plan : list (list pystr))
    (done : list toggle) (t : toggle) (todo : list toggle)
    (scripts : list (list exchange)) (p : exchange) (pend : list exchange)
    (f : exchange) (rest : list exchange) (op : last_operation) (d : pystr)
    (w : world) :
  tokens_ok w -> toggles plan = done ++ t :: todo ->
  forallb converges scripts = true -> length scripts = length done ->
  server w = concat scripts ++ p :: pend ++ f :: rest ->
  accepted p = true -> forallb in_progress pend = true ->
  observed f = Some op -> state op = lit "failed" -> description op = Some d ->
  (exists w' l h,
     test_extensions b g plan w = Raised (SystemExit 8) w' /\
     exit_status (test_extensions b g plan w) = Some 8%Z /\
     log w' = l ++ [HttpGet b g h; Print (Description d)] /\
     server w' = rest /\
     requests (log w') =
       requests (log w) ++ expected done scripts ++
       Change (payload t) :: repeat Poll (S (length pend))) /\
  (forall w0, exit_status (Ok tt w0) <> Some 8%Z) /\
  (forall e w0, (forall c, e <> SystemExit c) ->
     exit_status (@Raised unit e w0) = Some 1%Z /\
     exit_status (@Raised unit e w0) <> Some 8%Z).
Proof.
  intros Hok Hplan Hsc Hlen Hsrv Hp Hpend Hobs Hst Hd. split; [|split].
  - destruct (@run_converges b g done scripts (p :: pend ++ f :: rest)
                (t :: todo) w Hok Hsc Hlen Hsrv)
      as (w1 & E & Hok1 & Hsrv1 & Hreq1).
    destruct (@perform_fails b g t p pend f rest w1 op d Hok1 Hsrv1 Hp Hpend
                Hobs Hst Hd) as (w' & l & h & E' & Hsrv' & Hreq' & Hlog).
    assert (R : test_extensions b g plan w = Raised (SystemExit 8) w').
    { rewrite test_extensions_toggles, Hplan, E. cbn [for_each].
      unfold bind at 1. rewrite E'. reflexivity. }
    exists w', l, h. rewrite R. repeat split; auto.
    rewrite Hreq', Hreq1, <- app_assoc. reflexivity.
  - discriminate.
  - intros e w0 He. destruct e; simpl; try (split; [reflexivity|discriminate]).
    exfalso. apply (He code). reflexivity.
Qed.

Lemma failed_operation_aborts_witness :
  exists w' l h,
    test_extensions (lit "https://api") (lit "guid") the_plan scenario_failure
      = Raised (SystemExit 8) w' /\
    log w' = l ++ [HttpGet (lit "https://api") (lit "guid") h;
                   Print (Description (lit "dependency missing"))] /\
    requests (log w') =
      [Change (enable_extensions [lit "pg_trgm"] true); Poll; Poll;
       Change (enable_extensions [lit "hstore"] true); Poll].
Proof.
  assert (Hok : tokens_ok scenario_failure).
  { split; [reflexivity|]. intros _. reflexivity. }
  destruct (@failed_operation_aborts (lit "https://api") (lit "guid") the_plan
              [Enable (lit "pg_trgm")] (Enable (lit "hstore"))
              [Disable (lit "hstore"); Disable (lit "pg_trgm")]
              [converging] accepted_patch [] (polled_failed "dependency missing")
              [] (mkOp (lit "failed") (Some (lit "dependency missing")))
              (lit "dependency missing") scenario_failure
              Hok eq_refl eq_refl eq_refl eq_refl eq_refl eq_refl eq_refl
              eq_refl eq_refl)
    as [(w' & l & h & E & _ & Hlog & _ & Hreq) _].
  exists w', l, h. split; [exact E|]. split; [exact Hlog|]. exact Hreq.
Defined.

(** C7: when the stream ends before any credential was obtained, the
    first call of [_get_auth_header] raises as soon as the lines which
    were there are read, each once, and stores no credential; so a run
    sends no request at all, and a run which has a state change to make
    ends with that exception. *)
Theorem eof_before_credential_is_fatal (w : world) :
  _auth_header w = None -> Forall (fun l => blank l = true) (lines w) ->
  closed w = true ->
  (exists w',
     _get_auth_header w = Raised StopIteration w' /\
     _auth_header w' = None /\
     exists es, log w' = log w ++ es /\ reads es = lines w /\
       forallb stdin_event es = true) /\
  (forall b g plan,
     requests (log (world_of (test_extensions b g plan w))) = requests (log w) /\
     (toggles plan <> [] ->
      exists w', test_extensions b g plan w = Raised StopIteration w' /\
        exit_status (test_extensions b g plan w) = Some 1%Z)).
Proof.
  intros Hn Hb Hc. split.
  - destruct (get_header_starved w Hn Hb) as (w' & E & Hn' & _ & Hes).
    rewrite Hc in E. eauto.
  - intros b g plan. rewrite test_extensions_toggles.
    destruct (toggles plan) as [|t ts].
    + split; [reflexivity|]. intros H. contradiction.
    + destruct (get_header_starved (emit (Print (announcement t)) w) Hn Hb)
        as (w' & E & _ & _ & es & Hlog & _ & Hes).
      change (closed (emit (Print (announcement t)) w)) with (closed w) in E.
      rewrite Hc in E.
      assert (R : for_each (t :: ts) (perform b g) w = Raised StopIteration w').
      { cbn [for_each]. unfold bind at 1. unfold perform, bind, print.
        rewrite E. reflexivity. }
      rewrite R. split.
      * simpl. rewrite Hlog, requests_app, requests_emit,
          (requests_stdin _ Hes). simpl. rewrite !app_nil_r. reflexivity.
      * intros _. exists w'. split; reflexivity.
Qed.

Lemma eof_before_credential_is_fatal_witness :
  exists w',
    test_extensions (lit "https://api") (lit "guid") the_plan scenario_no_token
      = Raised StopIteration w'.
Proof.
  destruct (@eof_before_credential_is_fatal scenario_no_token eq_refl)
    as [_ H].
  - repeat constructor.
  - reflexivity.
  - destruct (H (lit "https://api") (lit "guid") the_plan) as [_ H'].
    destruct H' as (w' & E & _); [discriminate|].
    exists w'. exact E.
Defined.

(** ** Credentials along a run *)

Lemma fresh_split cur lk es1 es2 :
  fresh cur lk (es1 ++ es2) -> fresh (replay cur es1) (flag lk es1) es2.
Proof.
  revert cur lk. induction es1 as [|e es1 IH]; intros cur lk H; [exact H|].
  destruct e; simpl in *; try (apply IH; assumption).
  - destruct H as (_ & _ & _ & H). apply IH. exact H.
  - destruct H as (_ & _ & _ & H). apply IH. exact H.
Qed.

Lemma replay_no_read cur es : reads es = [] -> replay cur es = cur.
Proof.
  revert cur. induction es as [|e es IH]; intros cur H; [reflexivity|].
  destruct e; simpl in *; try (apply IH; assumption). discriminate H.
Qed.

Lemma fresh_head cur lk e es h :
  fresh cur lk (e :: es) -> request_header e = Some h -> h = cur.
Proof.
  destruct e; simpl; try discriminate; intros (_ & H & _) E;
    injection E as <-; exact H.
Qed.

(** A line adopted between two requests is the header of the second. *)
Lemma fresh_rotation cur lk es1 waited raw es2 e es3 h :
  fresh cur lk (es1 ++ Readline waited raw :: es2 ++ e :: es3) ->
  blank raw = false -> reads es2 = [] -> request_header e = Some h ->
  h = Some (strip raw).
Proof.
  intros H Hraw Hes2 He.
  apply fresh_split in H. simpl in H. apply fresh_split in H.
  rewrite (fresh_head _ _ _ _ H He), (replay_no_read _ _ Hes2).
  unfold adopt. rewrite truthy_strip, Hraw. reflexivity.
Qed.

Lemma replay_cases es : forall cur v,
  replay cur es = Some v ->
  cur = Some v \/ (v <> [] /\ exists raw, In raw (reads es) /\ v = strip raw).
Proof.
  induction es as [|e es IH]; intros cur v H; [left; exact H|].
  destruct e; simpl in H; try (apply IH; assumption).
  destruct (IH _ _ H) as [Hc|(Hv & r & Hin & Hr)].
  - unfold adopt in Hc. destruct (truthy (strip raw)) eqn:T; [|left; exact Hc].
    injection Hc as <-. right. split.
    + intros E. rewrite E in T. discriminate T.
    + exists raw. split; [left; reflexivity|reflexivity].
  - right. split; [exact Hv|]. exists r. split; [right; exact Hin|exact Hr].
Qed.

(** C8: in the log of any run, every request (each PATCH, each polling
    GET) carries the credential which is current when it is sent, and
    [_get_auth_header] looked at the stream since the request before it;
    so when a line is adopted between two requests, the second one
    carries it. *)
Theorem every_request_fresh_header (b g : pystr) (plan : list (list pystr))
    (w : world) :
  exists es,
    log (world_of (test_extensions b g plan w)) = log w ++ es /\
    fresh (_auth_header w) false es /\
    forall es1 waited raw es2 e es3 h,
      es = es1 ++ Readline waited raw :: es2 ++ e :: es3 ->
      blank raw = false -> reads es2 = [] -> request_header e = Some h ->
      h = Some (strip raw).
Proof.
  destruct (@spec_test_extensions b g plan w false I)
    as (es & Hlog & Hfresh & _).
  exists es. split; [exact Hlog|]. split; [exact Hfresh|].
  intros es1 waited raw es2 e es3 h -> Hraw Hes2 He.
  apply (fresh_rotation _ _ _ _ _ _ _ _ Hfresh Hraw Hes2 He).
Qed.

(** C9: a credential which is stored after a run, or after a call of
    [_get_auth_header], was stored before or is a line of the stream,
    stripped and not empty; the first acquisition reads over blank lines
    up to the first line which is not blank; a refresh which finds a
    blank line reads it, keeps the credential and prints no notice. *)
Theorem credential_is_nonblank_line :
  (forall b g plan w v,
     _auth_header (world_of (test_extensions b g plan w)) = Some v ->
     _auth_header w = Some v \/
     (v <> [] /\ exists raw, In raw (lines w) /\ v = strip raw)) /\
  (forall w v,
     _auth_header (world_of (_get_auth_header w)) = Some v ->
     _auth_header w = Some v \/
     (v <> [] /\ exists raw, In raw (lines w) /\ v = strip raw)) /\
  (forall w blanks raw rest,
     _auth_header w = None -> lines w = blanks ++ raw :: rest ->
     Forall (fun l => blank l = true) blanks -> blank raw = false ->
     exists w' es waited,
       _get_auth_header w = Ok (Some (strip raw)) w' /\
       _auth_header w' = Some (strip raw) /\ lines w' = rest /\
       log w' = log w ++ es ++ [Readline waited raw; Print NewAuthToken] /\
       length es = length blanks /\
       forall e, In e es -> exists b' l, e = Readline b' l /\ In l blanks) /\
  (forall w h raw rest,
     _auth_header w = Some h -> lines w = raw :: rest -> avail w <> 0 ->
     blank raw = true ->
     exists w',
       _get_auth_header w = Ok (Some h) w' /\
       _auth_header w' = Some h /\ lines w' = rest /\
       log w' = log w ++ [Select true; Readline false raw]).
Proof.
  assert (K : forall w es w' v,
    _auth_header w' = replay (_auth_header w) es ->
    lines w = reads es ++ lines w' -> _auth_header w' = Some v ->
    _auth_header w = Some v \/
    (v <> [] /\ exists raw, In raw (lines w) /\ v = strip raw)).
  { intros w es w' v Ha Hl Hv. rewrite Ha in Hv.
    destruct (replay_cases _ _ Hv) as [Hc|(Hne & raw & Hin & Hr)]; [auto|].
    right. split; [exact Hne|]. exists raw. split; [|exact Hr].
    rewrite Hl. apply in_or_app. left. exact Hin. }
  split; [|split; [|split]].
  - intros b g plan w v Hv.
    destruct (@spec_test_extensions b g plan w false I)
      as (es & _ & _ & Ha & Hl & _).
    apply (K w es _ v Ha Hl Hv).
  - intros w v Hv.
    destruct (get_header_sound w) as (es & _ & _ & Ha & _ & _ & Hl & _).
    apply (K w es _ v Ha Hl Hv).
  - intros w blanks raw rest Hn Hl Hb Hraw.
    destruct (@get_header_first w blanks raw rest Hn Hl Hb Hraw)
      as (w' & es & waited & E & Ha & Hl' & _ & Hlog & Hlen & Hes).
    exists w', es, waited. repeat split; auto.
  - intros w h raw rest Hh Hl Ha Hraw.
    exists (refreshed raw rest w).
    rewrite (get_header_refresh w Hh Hl Ha), refreshed_header,
      refreshed_lines, refreshed_log, Hraw, Hh.
    repeat split; reflexivity.
Qed.

Lemma credential_is_nonblank_line_witness :
  exists w',
    _get_auth_header blank_pending = Ok (Some (lit "bearer one")) w' /\
    _auth_header w' = Some (lit "bearer one") /\
    lines w' = [token_line "bearer two"] /\
    log w' = [Select true; Readline false [10%N]].
Proof.
  destruct credential_is_nonblank_line as (_ & _ & _ & H).
  apply (H blank_pending (lit "bearer one") [10%N] [token_line "bearer two"]).
  - reflexivity.
  - reflexivity.
  - discriminate.
  - reflexivity.
Defined.




Lemma every_request_fresh_header_witness :
  exists es1 es3 h,
    log (world_of (test_extensions (lit "https://api") (lit "guid")
                     [[lit "pg_trgm"]] scenario_rotation)) =
      es1 ++ Readline false (token_line "bearer two") ::
        [Print NewAuthToken] ++
        HttpGet (lit "https://api") (lit "guid") h :: es3 /\
    h = Some (lit "bearer two").
Proof.
  destruct (every_request_fresh_header (lit "https://api") (lit "guid")
              [[lit "pg_trgm"]] scenario_rotation) as (es & Hlog & _ & H).
  set (es1 := [Print (Enabling (lit "pg_trgm"));
               Readline false (token_line "bearer one"); Print NewAuthToken;
               HttpPatch (lit "https://api") (lit "guid")
                 (Some (lit "bearer one"))
                 (enable_extensions [lit "pg_trgm"] true);
               Sleep 10; Select true]).
  set (es3 := [Print Succeeded; Print (Disabling (lit "pg_trgm"));
               Select false;
               HttpPatch (lit "https://api") (lit "guid")
                 (Some (lit "bearer two"))
                 (disable_extensions [lit "pg_trgm"] true)]).
  exists es1, es3, (Some (lit "bearer two")).
  split; [reflexivity|].
  refine (H es1 false (token_line "bearer two") [Print NewAuthToken]
            (HttpGet (lit "https://api") (lit "guid") (Some (lit "bearer two")))
            es3 (Some (lit "bearer two")) _ eq_refl eq_refl eq_refl).
  vm_compute in Hlog. rewrite <- Hlog. reflexivity.
Defined.


(** * Further properties *)

(** ** One turn, whatever the stream does *)

Section Turns.
Variables b g : pystr.

Lemma poll_raised srv w e w1 :
  _get_auth_header (emit (Sleep 10) w) = Raised e w1 ->
  poll b g srv w = Raised e w1.
Proof.
  intros E. rewrite poll_unfold. unfold bind at 1. unfold sleep.
  unfold bind at 1. rewrite E. reflexivity.
Qed.



Lemma perform_raised t w e w1 :
  _get_auth_header (emit (Print (announcement t)) w) = Raised e w1 ->
  perform b g t w = Raised e w1.
Proof.
  intros E. unfold perform. unfold bind at 1. unfold print.
  unfold bind at 1. rewrite E. reflexivity.
Qed.

Lemma perform_blocked t w w1 :
  _get_auth_header (emit (Print (announcement t)) w) = Blocked w1 ->
  perform b g t w = Blocked w1.
Proof.
  intros E. unfold perform. unfold bind at 1. unfold print.
  unfold bind at 1. rewrite E. reflexivity.
Qed.

End Turns.

(** ** Requests which are refused, answers which lack a key *)

(** X1: when the answer to a state change does not pass (no answer, or
    a status from 400 to 599), the run ends there with the exception of
    the refusal, exit status 1: the change is its last request, no poll
    follows and the state changes still to come are not sent. *)
Theorem refused_change_aborts (b g : pystr) (plan : list (list pystr))
    (done : list toggle) (t : toggle) (todo : list toggle)
    (scripts : list (list exchange)) (p : exchange) (rest : list exchange)
    (w : world) :
  tokens_ok w -> toggles plan = done ++ t :: todo ->
  forallb converges scripts = true -> length scripts = length done ->
  server w = concat scripts ++ p :: rest -> accepted p = false ->
  exists w' l h,
    test_extensions b g plan w = Raised (refusal (reply p)) w' /\
    exit_status (test_extensions b g plan w) = Some 1%Z /\
    log w' = l ++ [HttpPatch b g h (payload t)] /\
    server w' = rest /\
    requests (log w') =
      requests (log w) ++ expected done scripts ++ [Change (payload t)].
Proof.
  intros Hok Hplan Hsc Hlen Hsrv Hp.
  destruct (@run_converges b g done scripts (p :: rest) (t :: todo) w
              Hok Hsc Hlen Hsrv) as (w1 & E & Hok1 & Hsrv1 & Hreq1).
  destruct (@perform_sent b g t p rest w1 Hok1 Hsrv1)
    as (h & w2 & _ & _ & Hsrv2 & Hreq2 & E').
  set (w3 := advance p rest (emit (HttpPatch b g (Some h) (payload t)) w2)) in *.
  assert (R : perform b g t w1 = Raised (refusal (reply p)) w3).
  { rewrite E'. unfold accepted in Hp.
    destruct (reply p) as [|c body]; [reflexivity|]. rewrite Hp. reflexivity. }
  assert (T : test_extensions b g plan w = Raised (refusal (reply p)) w3).
  { rewrite test_extensions_toggles, Hplan, E. cbn [for_each].
    unfold bind at 1. rewrite R. reflexivity. }
  exists w3, (log w2), (Some h). rewrite T. repeat split; auto.
  - destruct (reply p); reflexivity.
  - rewrite Hreq2, Hreq1, <- app_assoc. reflexivity.
Qed.

Lemma refused_change_aborts_witness :
  exists w' l h,
    test_extensions (lit "https://api") (lit "guid") the_plan
      scenario_refused_change = Raised HTTPError w' /\
    log w' = l ++ [HttpPatch (lit "https://api") (lit "guid") h
                     (enable_extensions [lit "hstore"] true)] /\
    requests (log w') =
      [Change (enable_extensions [lit "pg_trgm"] true); Poll; Poll;
       Change (enable_extensions [lit "hstore"] true)].
Proof.
  assert (Hok : tokens_ok scenario_refused_change).
  { split; [reflexivity|]. intros _. reflexivity. }
  destruct (@refused_change_aborts (lit "https://api") (lit "guid") the_plan
              [Enable (lit "pg_trgm")] (Enable (lit "hstore"))
              [Disable (lit "hstore"); Disable (lit "pg_trgm")]
              [converging] (mkExchange (Response 503 None) 0) []
              scenario_refused_change
              Hok eq_refl eq_refl eq_refl eq_refl eq_refl)
    as (w' & l & h & E & _ & Hlog & _ & Hreq).
  exists w', l, h. split; [exact E|]. split; [exact Hlog|exact Hreq].
Defined.

(** X2: when the answer to a poll does not pass, [_wait_for_success]
    ends with the exception of the refusal whatever the body says, also
    when it says "succeeded": the poll is not sent again, and nothing is
    printed after it. *)
Theorem refused_poll_aborts (b g : pystr) (w : world) (x : exchange)
    (rest : list exchange) :
  tokens_ok w -> server w = x :: rest -> accepted x = false ->
  exists w' l h,
    _wait_for_success b g w = Raised (refusal (reply x)) w' /\
    exit_status (_wait_for_success b g w) = Some 1%Z /\
    log w' = l ++ [HttpGet b g h] /\ server w' = rest /\
    requests (log w') = requests (log w) ++ [Poll].
Proof.
  intros Hok Hsrv Hx.
  destruct (@poll_answered b g x rest w Hok)
    as (h & w1 & E & _ & Hsrv2 & Hreq2 & _).
  set (w2 := advance x rest (emit (HttpGet b g (Some h)) w1)) in *.
  assert (R : _wait_for_success b g w = Raised (refusal (reply x)) w2).
  { unfold _wait_for_success. rewrite Hsrv, (poll_turn b g x rest w E).
    fold w2. unfold accepted in Hx.
    destruct (reply x) as [|c body]; [reflexivity|]. rewrite Hx. reflexivity. }
  exists w2, (log w1), (Some h). rewrite R. repeat split; auto.
  destruct (reply x); reflexivity.
Qed.

Lemma refused_poll_aborts_witness :
  exists w' l h,
    _wait_for_success (lit "https://api") (lit "guid") scenario_refused_poll
      = Raised HTTPError w' /\
    log w' = l ++ [HttpGet (lit "https://api") (lit "guid") h] /\
    server w' = [polled "succeeded"].
Proof.
  assert (Hok : tokens_ok scenario_refused_poll)
    by (split; [reflexivity|discriminate]).
  destruct (@refused_poll_aborts (lit "https://api") (lit "guid")
              scenario_refused_poll _ _ Hok eq_refl eq_refl)
    as (w' & l & h & E & _ & Hlog & Hsrv & _).
  exists w', l, h. split; [exact E|]. split; [exact Hlog|exact Hsrv].
Defined.

(** X3: when a poll sees "failed" and the answer holds no description,
    the lookup of the description raises before anything is printed and
    before [sys.exit] is reached: the call ends with [KeyError], exit
    status 1 and not 8, and the log ends with the poll. *)
Theorem failed_without_description (b g : pystr) (w : world) (x : exchange)
    (rest : list exchange) (op : last_operation) :
  tokens_ok w -> server w = x :: rest -> observed x = Some op ->
  state op = lit "failed" -> description op = None ->
  exists w' l h,
    _wait_for_success b g w = Raised KeyError w' /\
    exit_status (_wait_for_success b g w) = Some 1%Z /\
    log w' = l ++ [HttpGet b g h] /\ server w' = rest.
Proof.
  intros Hok Hsrv Hobs Hst Hd.
  destruct (observed_reply x Hobs) as (c & Hr & Hc).
  destruct (@poll_answered b g x rest w Hok)
    as (h & w1 & E & _ & Hsrv2 & _ & _).
  set (w2 := advance x rest (emit (HttpGet b g (Some h)) w1)) in *.
  assert (R : _wait_for_success b g w = Raised KeyError w2).
  { unfold _wait_for_success. rewrite Hsrv, (poll_turn b g x rest w E).
    fold w2. rewrite Hr, Hc, Hst, Hd. reflexivity. }
  exists w2, (log w1), (Some h). rewrite R. repeat split; auto.
Qed.

Lemma failed_without_description_witness :
  exists w' l h,
    _wait_for_success (lit "https://api") (lit "guid") scenario_no_description
      = Raised KeyError w' /\
    log w' = l ++ [HttpGet (lit "https://api") (lit "guid") h].
Proof.
  assert (Hok : tokens_ok scenario_no_description)
    by (split; [reflexivity|discriminate]).
  destruct (@failed_without_description (lit "https://api") (lit "guid")
              scenario_no_description _ _ (mkOp (lit "failed") None)
              Hok eq_refl eq_refl eq_refl eq_refl)
    as (w' & l & h & E & _ & Hlog & _).
  exists w', l, h. split; [exact E|exact Hlog].
Defined.



(** ** Plans and streams at their edges *)

Lemma toggles_empty plan :
  Forall (fun extension_set => extension_set = []) plan -> toggles plan = [].
Proof.
  induction 1 as [|s plan Hs _ IH]; [reflexivity|].
  subst s. exact IH.
Qed.

(** X5: a plan which names no extension (no row, or empty rows only)
    makes the run return at once: nothing is read from the stream, also
    when no token was obtained yet, nothing is sent and nothing printed. *)
Theorem empty_plan_does_nothing (b g : pystr) (plan : list (list pystr))
    (w : world) :
  Forall (fun extension_set => extension_set = []) plan ->
  test_extensions b g plan w = Ok tt w.
Proof.
  intros H. rewrite test_extensions_toggles, (toggles_empty H). reflexivity.
Qed.

Lemma empty_plan_does_nothing_witness :
  test_extensions (lit "https://api") (lit "guid") [[]; []] scenario_no_token
    = Ok tt scenario_no_token.
Proof.
  apply (@empty_plan_does_nothing (lit "https://api") (lit "guid") [[]; []]
           scenario_no_token).
  repeat constructor.
Defined.

Lemma read_header_blanks ls : forall w,
  _auth_header w = None -> Forall (fun l => blank l = true) ls ->
  exists w',
    read_header ls w = (if closed w then Raised StopIteration w' else Blocked w') /\
    _auth_header w' = None /\
    exists es, log w' = log w ++ es /\ reads es = ls /\
      forall e, In e es -> exists waited l, e = Readline waited l.
Proof.
  induction ls as [|raw ls IH]; intros w Hn Hb.
  - exists w. simpl. destruct (closed w); repeat split; auto;
      exists []; rewrite app_nil_r; repeat split; auto; intros e [].
  - inversion Hb as [|? ? Hraw Hrest]; subst.
    simpl. rewrite truthy_strip, Hraw. simpl. rewrite Hn.
    set (w0 := emit _ _).
    destruct (IH w0) as (w' & E & Hn' & es & Hlog & Hrd & Hes); auto.
    exists w'. rewrite E. repeat split; auto.
    exists (Readline (Nat.eqb (avail w) 0) raw :: es).
    rewrite Hlog. subst w0. simpl. rewrite <- app_assoc, Hrd.
    repeat split; auto. intros e [<-|He]; eauto.
Qed.

Lemma requests_readlines es :
  (forall e, In e es -> exists waited l, e = Readline waited l) ->
  requests es = [].
Proof.
  induction es as [|e es IH]; intros H; [reflexivity|].
  destruct (H e (or_introl eq_refl)) as (waited & l & ->). simpl.
  apply IH. intros e' He'. apply H. right. exact He'.
Qed.

(** X6: while no token was obtained and the open stream brings blank
    lines only, the first call of [_get_auth_header] reads them all and
    then waits: it does not come back, stores nothing and prints no
    notice; a run with a state change to make waits with it, before any
    request. *)
Theorem first_token_is_awaited (w : world) :
  _auth_header w = None -> Forall (fun l => blank l = true) (lines w) ->
  closed w = false ->
  (exists w',
     _get_auth_header w = Blocked w' /\ _auth_header w' = None /\
     exists es, log w' = log w ++ es /\ reads es = lines w /\
       forall e, In e es -> exists waited l, e = Readline waited l) /\
  (forall b g plan, toggles plan <> [] ->
     exists w', test_extensions b g plan w = Blocked w' /\
       requests (log w') = requests (log w) /\
       exit_status (test_extensions b g plan w) = None).
Proof.
  intros Hn Hb Hc.
  assert (K : forall w0, _auth_header w0 = None -> lines w0 = lines w ->
                closed w0 = false ->
                exists w', _get_auth_header w0 = Blocked w' /\
                  _auth_header w' = None /\
                  exists es, log w' = log w0 ++ es /\ reads es = lines w /\
                    forall e, In e es -> exists waited l, e = Readline waited l).
  { intros w0 Hn0 Hl0 Hc0. rewrite <- Hl0 in Hb.
    destruct (@read_header_blanks (lines w0) w0 Hn0 Hb)
      as (w' & E & Hn' & es & Hlog & Hrd & Hes).
    rewrite Hc0 in E. exists w'.
    unfold _get_auth_header, bind, ret. rewrite Hn0. cbv beta iota.
    rewrite E. split; [reflexivity|]. split; [exact Hn'|].
    exists es. rewrite <- Hl0. auto. }
  split.
  - apply K; auto.
  - intros b g plan Hts. rewrite test_extensions_toggles.
    destruct (toggles plan) as [|t ts]; [contradiction|].
    destruct (K (emit (Print (announcement t)) w) Hn eq_refl Hc)
      as (w' & E & _ & es & Hlog & _ & Hes).
    assert (R : for_each (t :: ts) (perform b g) w = Blocked w').
    { cbn [for_each]. unfold bind at 1.
      rewrite (perform_blocked b g t w E). reflexivity. }
    exists w'. rewrite R. repeat split.
    rewrite Hlog, requests_app, requests_emit, (requests_readlines es Hes).
    simpl. rewrite !app_nil_r. reflexivity.
Qed.

Lemma first_token_is_awaited_witness :
  exists w',
    test_extensions (lit "https://api") (lit "guid") the_plan scenario_waiting
      = Blocked w' /\
    requests (log w') = [].
Proof.
  destruct (@first_token_is_awaited scenario_waiting eq_refl) as [_ H].
  - repeat constructor.
  - reflexivity.
  - destruct (H (lit "https://api") (lit "guid") the_plan) as (w' & E & Hr & _);
      [discriminate|].
    exists w'. split; [exact E|exact Hr].
Defined.

(** X7: a stored credential does not protect against the end of the
    stream: when the feeder is gone and every line was read, the
    readiness check says yes, the read raises [StopIteration], and the
    poll or state change which asked for the header is not sent; the
    credential itself stays stored. *)
Theorem feeder_gone_is_fatal (w : world) (h : pystr) :
  _auth_header w = Some h -> lines w = [] -> closed w = true ->
  (forall b g,
     exists w', _wait_for_success b g w = Raised StopIteration w' /\
       requests (log w') = requests (log w) /\
       _auth_header w' = Some h /\
       exit_status (_wait_for_success b g w) = Some 1%Z) /\
  (forall b g plan, toggles plan <> [] ->
     exists w', test_extensions b g plan w = Raised StopIteration w' /\
       requests (log w') = requests (log w) /\
       _auth_header w' = Some h /\
       exit_status (test_extensions b g plan w) = Some 1%Z).
Proof.
  intros Hh Hl Hc. split.
  - intros b g.
    pose proof (@get_header_eof (emit (Sleep 10) w) h Hh Hl Hc) as E.
    exists (emit (Select true) (emit (Sleep 10) w)).
    unfold _wait_for_success. rewrite (poll_raised b g (server w) w E).
    repeat split; auto.
    rewrite !requests_emit. simpl. rewrite !app_nil_r. reflexivity.
  - intros b g plan Hts. rewrite test_extensions_toggles.
    destruct (toggles plan) as [|t ts]; [contradiction|].
    pose proof (@get_header_eof (emit (Print (announcement t)) w) h Hh Hl Hc)
      as E.
    assert (R : for_each (t :: ts) (perform b g) w =
                Raised StopIteration
                  (emit (Select true) (emit (Print (announcement t)) w))).
    { cbn [for_each]. unfold bind at 1.
      rewrite (perform_raised b g t w E). reflexivity. }
    exists (emit (Select true) (emit (Print (announcement t)) w)).
    rewrite R. repeat split; auto.
    rewrite !requests_emit. simpl. rewrite !app_nil_r. reflexivity.
Qed.

Lemma feeder_gone_is_fatal_witness :
  exists w',
    test_extensions (lit "https://api") (lit "guid") the_plan
      scenario_feeder_gone = Raised StopIteration w' /\
    requests (log w') = [].
Proof.
  destruct (@feeder_gone_is_fatal scenario_feeder_gone (lit "bearer one")
              eq_refl eq_refl eq_refl) as [_ H].
  destruct (H (lit "https://api") (lit "guid") the_plan) as (w' & E & Hr & _);
    [discriminate|].
  exists w'. split; [exact E|exact Hr].
Defined.

(** ** What stripping keeps *)

Lemma lstrip_suffix (s : pystr) :
  exists p, s = p ++ lstrip s /\ blank p = true.
Proof.
  induction s as [|c r (p & E & B)]; [exists []; auto|]. simpl.
  destruct (is_space c) eqn:C.
  - exists (c :: p). simpl. rewrite C, B, <- E. auto.
  - exists []. auto.
Qed.

Lemma rstrip_prefix (s : pystr) :
  exists q, s = rstrip s ++ q /\ blank q = true.
Proof.
  destruct (lstrip_suffix (rev s)) as (p & E & B).
  exists (rev p). unfold rstrip. rewrite blank_rev. split; [|exact B].
  rewrite <- rev_app_distr, <- E, rev_involutive. reflexivity.
Qed.

Lemma strip_decompose (raw : pystr) :
  exists pre post,
    raw = pre ++ strip raw ++ post /\ blank pre = true /\ blank post = true.
Proof.
  destruct (lstrip_suffix raw) as (pre & E & B).
  destruct (rstrip_prefix (lstrip raw)) as (post & E' & B').
  exists pre, post. unfold strip. rewrite <- E', <- E. auto.
Qed.

Lemma strip_stripped (raw : pystr) : strip raw <> [] -> stripped (strip raw).
Proof.
  intros Hne. split; [exact Hne|]. split.
  - intros c r E.
    destruct (rstrip_prefix (lstrip raw)) as (q & Eq & _).
    fold (strip raw) in Eq. rewrite E in Eq. simpl in Eq.
    apply (lstrip_head raw Eq).
  - intros c r E. unfold strip, rstrip in E.
    apply (f_equal (@rev N)) in E.
    rewrite rev_involutive, rev_app_distr in E. simpl in E.
    apply (lstrip_head _ E).
Qed.

Lemma lstrip_app_blank (p s : pystr) :
  blank p = true -> lstrip (p ++ s) = lstrip s.
Proof.
  induction p as [|c p IH]; [reflexivity|]. simpl. intros H.
  apply andb_true_iff in H as [Hc Hp]. rewrite Hc. auto.
Qed.

Lemma strip_exact (pre v post : pystr) :
  blank pre = true -> blank post = true -> stripped v ->
  strip (pre ++ v ++ post) = v.
Proof.
  intros Bpre Bpost (Hne & Hfirst & Hlast). unfold strip, rstrip.
  rewrite (@lstrip_app_blank pre (v ++ post) Bpre).
  assert (L : lstrip (v ++ post) = v ++ post).
  { destruct v as [|c r]; [contradiction|]. simpl.
    rewrite (Hfirst c r eq_refl). reflexivity. }
  rewrite L, rev_app_distr, lstrip_app_blank by (rewrite blank_rev; exact Bpost).
  destruct (rev v) as [|c r] eqn:R.
  - apply (f_equal (@rev N)) in R. rewrite rev_involutive in R.
    contradiction.
  - assert (V : v = rev r ++ [c]).
    { rewrite <- (rev_involutive v), R. reflexivity. }
    simpl. rewrite (Hlast c (rev r) V). simpl. symmetry. exact V.
Qed.

(** X8: the value [_get_auth_header] stores for a line is the line
    without the white space at its two ends, whatever lies in between:
    a token which neither starts nor ends with white space, written with
    any blanks around it and its newline, is adopted as it is. *)
Theorem token_adopted_verbatim (w : world) (h pre v post : pystr)
    (rest : list pystr) :
  _auth_header w = Some h -> lines w = (pre ++ v ++ post) :: rest ->
  avail w <> 0 -> blank pre = true -> blank post = true -> stripped v ->
  exists w',
    _get_auth_header w = Ok (Some v) w' /\ _auth_header w' = Some v /\
    lines w' = rest /\
    log w' = log w ++ [Select true; Readline false (pre ++ v ++ post);
                       Print NewAuthToken].
Proof.
  intros Hh Hl Ha Bpre Bpost Hv.
  pose proof (@strip_exact pre v post Bpre Bpost Hv) as S.
  assert (B : blank (pre ++ v ++ post) = false).
  { destruct (blank (pre ++ v ++ post)) eqn:B; [|reflexivity].
    apply strip_nil_iff in B. rewrite S in B. destruct Hv as [Hne _].
    contradiction. }
  exists (refreshed (pre ++ v ++ post) rest w).
  rewrite (get_header_refresh w Hh Hl Ha), refreshed_header, refreshed_lines,
    refreshed_log, B, S.
  repeat split; reflexivity.
Qed.

Lemma token_adopted_verbatim_witness :
  exists w',
    _get_auth_header two_pending = Ok (Some (lit "bearer two")) w' /\
    _auth_header w' = Some (lit "bearer two").
Proof.
  destruct (@token_adopted_verbatim two_pending (lit "bearer one") []
              (lit "bearer two") [10%N] [token_line "bearer three"]
              eq_refl eq_refl) as (w' & E & Ha & _).
  - discriminate.
  - reflexivity.
  - reflexivity.
  - split; [discriminate|]. split.
    + intros c r E. injection E as <- _. reflexivity.
    + intros c r E.
      assert (R : rev (lit "bearer two") = rev (r ++ [c])) by (rewrite E; reflexivity).
      rewrite rev_app_distr in R. simpl in R. injection R as <- _. reflexivity.
  - exists w'. split; [exact E|exact Ha].
Defined.

(** ** The stream and the credential along any run *)

(** X9: whatever the service answers and however the call ends, a run
    reads the stream in order and each line once: the lines it read, as
    the log has them, followed by the lines it left, are the stream it
    found; the same holds of one wait and of one call of
    [_get_auth_header]. *)
Theorem stream_read_in_order (b g : pystr) (plan : list (list pystr))
    (w : world) :
  (exists es,
     log (world_of (test_extensions b g plan w)) = log w ++ es /\
     lines w = reads es ++ lines (world_of (test_extensions b g plan w))) /\
  (exists es,
     log (world_of (_wait_for_success b g w)) = log w ++ es /\
     lines w = reads es ++ lines (world_of (_wait_for_success b g w))) /\
  (exists es,
     log (world_of (_get_auth_header w)) = log w ++ es /\
     lines w = reads es ++ lines (world_of (_get_auth_header w))).
Proof.
  split; [|split].
  - destruct (@spec_test_extensions b g plan w false I)
      as (es & Hlog & _ & _ & Hl & _). eauto.
  - destruct (@spec_wait_for_success b g w false I)
      as (es & Hlog & _ & _ & Hl & _). eauto.
  - destruct (get_header_sound w) as (es & Hlog & _ & _ & _ & _ & Hl & _).
    eauto.
Qed.

Lemma replay_some es : forall h, replay (Some h) es <> None.
Proof.
  induction es as [|e es IH]; intros h; [discriminate|].
  destruct e; simpl; try apply IH.
  unfold adopt. destruct (truthy (strip raw)); apply IH.
Qed.

(** X10: a credential, once stored, is replaced but never cleared: after
    a run, a wait or a call of [_get_auth_header] which found a
    credential there is one, however the call ended. *)
Theorem credential_never_cleared (b g : pystr) (plan : list (list pystr))
    (w : world) (h : pystr) :
  _auth_header w = Some h ->
  _auth_header (world_of (test_extensions b g plan w)) <> None /\
  _auth_header (world_of (_wait_for_success b g w)) <> None /\
  _auth_header (world_of (_get_auth_header w)) <> None.
Proof.
  intros Hh. split; [|split].
  - destruct (@spec_test_extensions b g plan w false I)
      as (es & _ & _ & Ha & _). rewrite Ha, Hh. apply replay_some.
  - destruct (@spec_wait_for_success b g w false I)
      as (es & _ & _ & Ha & _). rewrite Ha, Hh. apply replay_some.
  - destruct (get_header_sound w) as (es & _ & _ & Ha & _).
    rewrite Ha, Hh. apply replay_some.
Qed.

Lemma credential_never_cleared_witness :
  _auth_header (world_of (test_extensions (lit "https://api") (lit "guid")
                            the_plan scenario_feeder_gone)) <> None.
Proof.
  apply (@credential_never_cleared (lit "https://api") (lit "guid") the_plan
           scenario_feeder_gone (lit "bearer one") eq_refl).
Defined.

Lemma fresh_request cur lk es e h :
  fresh cur lk es -> In e es -> request_header e = Some h ->
  h <> None /\ exists es1 es2, es = es1 ++ e :: es2 /\ h = replay cur es1.
Proof.
  intros Hf Hin He. apply in_split in Hin as (es1 & es2 & ->).
  apply fresh_split in Hf.
  assert (K : h = replay cur es1 /\ replay cur es1 <> None).
  { destruct e; simpl in He; try discriminate He; injection He as <-;
      simpl in Hf; destruct Hf as (_ & Hh & Hne & _); auto. }
  destruct K as [-> Hne]. split; [exact Hne|]. eauto.
Qed.

(** X11: every request of a run of a process which has just started
    carries an Authorization value, and that value is a line of the
    token stream without the white space at its two ends: it is not
    empty and neither starts nor ends with white space, so the newline
    of the line is never sent. *)
Theorem every_header_is_stripped_line (b g : pystr)
    (plan : list (list pystr)) (ls : list pystr) (n : nat) (c : bool)
    (srv : list exchange) (e : event) (h : option pystr) :
  In e (log (world_of (test_extensions b g plan (start ls n c srv)))) ->
  request_header e = Some h ->
  exists raw pre v post,
    h = Some v /\ In raw ls /\ raw = pre ++ v ++ post /\
    blank pre = true /\ blank post = true /\ stripped v.
Proof.
  intros Hin He.
  destruct (@spec_test_extensions b g plan (start ls n c srv) false I)
    as (es & Hlog & Hf & _ & Hl & _).
  simpl in Hlog, Hf, Hl. rewrite Hlog in Hin.
  destruct (@fresh_request None false es e h Hf Hin He)
    as (Hne & es1 & es2 & -> & Hh).
  destruct h as [v|]; [|contradiction].
  symmetry in Hh. destruct (replay_cases _ _ Hh) as [Hc|(Hv & raw & Hraw & ->)];
    [discriminate Hc|].
  destruct (strip_decompose raw) as (pre & post & E & Bpre & Bpost).
  exists raw, pre, (strip raw), post. repeat split; auto.
  - rewrite Hl, reads_app. apply in_or_app. left. apply in_or_app. left.
    exact Hraw.
  - apply (strip_stripped raw Hv).
  - apply (strip_stripped raw Hv).
Qed.

Lemma every_header_is_stripped_line_witness :
  exists raw pre v post,
    Some (lit "bearer one") = Some v /\
    In raw [token_line "bearer one"] /\ raw = pre ++ v ++ post /\
    blank pre = true /\ blank post = true /\ stripped v.
Proof.
  apply (@every_header_is_stripped_line (lit "https://api") (lit "guid")
           the_plan [token_line "bearer one"] 1 false
           (converging ++ converging ++ converging ++ converging)
           (HttpPatch (lit "https://api") (lit "guid") (Some (lit "bearer one"))
              (enable_extensions [lit "pg_trgm"] true))
           (Some (lit "bearer one"))).
  - vm_compute. do 3 right. left. reflexivity.
  - reflexivity.
Defined.

(** ** The requests of any run *)



Section Shape.
Variables b g : pystr.



End Shape.



(** ** What a converging run prints *)

Lemma progress_app l1 l2 : progress (l1 ++ l2) = progress l1 ++ progress l2.
Proof. apply flat_map_app. Qed.

Lemma progress_stdin es : forallb stdin_event es = true -> progress es = [].
Proof.
  induction es as [|e es IH]; [reflexivity|]. simpl. intros H.
  apply andb_true_iff in H as [He H]. rewrite (IH H).
  destruct e as [| | o | | |]; try discriminate He; try reflexivity.
  destruct o; try discriminate He; reflexivity.
Qed.

Lemma progress_emit e w :
  progress (log (emit e w)) = progress (log w) ++ progress [e].
Proof. unfold emit. cbn [log]. apply progress_app. Qed.

Lemma get_header_progress w :
  progress (log (world_of (_get_auth_header w))) = progress (log w).
Proof.
  destruct (get_header_sound w) as (es & Hlog & Hev & _).
  rewrite Hlog, progress_app, (progress_stdin _ Hev). apply app_nil_r.
Qed.

Section Transcript.
Variables b g : pystr.

Lemma poll_converging_progress pend : forall s rest w,
  tokens_ok w -> forallb in_progress pend = true -> succeeds s = true ->
  progress (log (world_of (poll b g (pend ++ s :: rest) w))) =
    progress (log w) ++ repeat Dot (length pend) ++ [Succeeded].
Proof.
  induction pend as [|x pend IH]; intros s rest w Hok Hp Hs.
  - unfold succeeds in Hs.
    destruct (observed s) as [op|] eqn:Hobs; [|discriminate].
    destruct (observed_reply s Hobs) as (c & Hr & Hc).
    destruct (@poll_answered b g s rest w Hok) as (h & w1 & E & _).
    pose proof (get_header_progress (emit (Sleep 10) w)) as Hpr.
    rewrite E, progress_emit in Hpr. simpl in Hpr. rewrite app_nil_r in Hpr.
    cbn [app]. rewrite (poll_turn b g s rest w E), Hr, Hc, Hs.
    cbn [world_of]. rewrite progress_emit.
    change (log (advance s rest (emit (HttpGet b g (Some h)) w1)))
      with (log (emit (HttpGet b g (Some h)) w1)).
    rewrite progress_emit, Hpr. simpl. rewrite app_nil_r. reflexivity.
  - simpl in Hp. apply andb_true_iff in Hp as [Hx Hp].
    destruct (in_progress_observed x Hx) as (op & Hobs & Hsx & Hfx).
    destruct (observed_reply x Hobs) as (c & Hr & Hc).
    destruct (@poll_answered b g x (pend ++ s :: rest) w Hok)
      as (h & w1 & E & Hok2 & _).
    pose proof (get_header_progress (emit (Sleep 10) w)) as Hpr.
    rewrite E, progress_emit in Hpr. simpl in Hpr. rewrite app_nil_r in Hpr.
    rewrite <- app_comm_cons.
    rewrite (poll_turn b g x (pend ++ s :: rest) w E), Hr, Hc, Hsx, Hfx.
    rewrite IH; auto.
    rewrite progress_emit.
    change (log (advance x (pend ++ s :: rest) (emit (HttpGet b g (Some h)) w1)))
      with (log (emit (HttpGet b g (Some h)) w1)).
    rewrite progress_emit, Hpr. simpl. rewrite app_nil_r, <- app_assoc.
    reflexivity.
Qed.

Lemma perform_converging_progress t xs rest w :
  tokens_ok w -> server w = xs ++ rest -> converges xs = true ->
  progress (log (world_of (perform b g t w))) =
    progress (log w) ++
    announcement t :: repeat Dot (length xs - 2) ++ [Succeeded].
Proof.
  intros Hok Hsrv Hxs.
  destruct (converges_shape xs Hxs) as (p & pend & s & -> & Hp & Hpend & Hs).
  destruct (accepted_reply p Hp) as (c & body & Hr & Hc).
  rewrite <- app_comm_cons, <- app_assoc in Hsrv.
  destruct (@perform_sent b g t p _ w Hok Hsrv)
    as (h & w1 & Eh & Hok2 & Hsrv2 & _ & E).
  pose proof (get_header_progress (emit (Print (announcement t)) w)) as Hpr.
  rewrite Eh, progress_emit in Hpr. cbn [world_of] in Hpr.
  change ([s] ++ rest) with (s :: rest) in *.
  rewrite E, Hr, Hc. unfold _wait_for_success. rewrite Hsrv2.
  rewrite (@poll_converging_progress pend s rest _ Hok2 Hpend Hs).
  change (log (advance p (pend ++ s :: rest)
                 (emit (HttpPatch b g (Some h) (payload t)) w1)))
    with (log (emit (HttpPatch b g (Some h) (payload t)) w1)).
  rewrite progress_emit, Hpr. cbn [progress flat_map app].
  rewrite app_nil_r, <- app_assoc.
  replace (length (p :: pend ++ [s]) - 2) with (length pend)
    by (simpl; rewrite length_app; simpl; lia).
  destruct t; reflexivity.
Qed.

Lemma run_converging_progress ts : forall scripts rest w,
  tokens_ok w -> forallb converges scripts = true ->
  length scripts = length ts -> server w = concat scripts ++ rest ->
  progress (log (world_of (for_each ts (perform b g) w))) =
    progress (log w) ++ transcript ts scripts.
Proof.
  induction ts as [|t ts IH]; intros scripts rest w Hok Hsc Hlen Hsrv.
  - destruct scripts; [|discriminate]. simpl. rewrite app_nil_r. reflexivity.
  - destruct scripts as [|xs scripts]; [discriminate|].
    simpl in Hsc. apply andb_true_iff in Hsc as [Hxs Hsc].
    simpl in Hsrv. rewrite <- app_assoc in Hsrv.
    pose proof (@perform_converging_progress t xs _ w Hok Hsrv Hxs) as Hpr.
    destruct (@perform_converges b g t xs _ w Hok Hsrv Hxs)
      as (w' & E & Hok' & Hsrv' & _).
    rewrite E in Hpr. cbn [world_of] in Hpr.
    cbn [for_each]. unfold bind at 1. rewrite E.
    rewrite (@IH scripts rest w' Hok' Hsc); [|simpl in Hlen; lia|exact Hsrv'].
    rewrite Hpr. cbn [transcript]. rewrite <- !app_assoc.
    f_equal. rewrite <- !app_comm_cons, <- ?app_assoc. reflexivity.
Qed.
End Transcript.

(** X13: when every operation of the plan converges, the progress text
    of the run is, for each state change of the plan in order, its
    announcement, one dot for each poll which saw it in progress, and
    "succeeded"; nothing else is printed but the notices of new tokens. *)
Theorem converging_run_transcript (b g : pystr) (plan : list (list pystr))
    (scripts : list (list exchange)) (rest : list exchange) (w : world) :
  tokens_ok w -> forallb converges scripts = true ->
  length scripts = length (toggles plan) ->
  server w = concat scripts ++ rest ->
  progress (log (world_of (test_extensions b g plan w))) =
    progress (log w) ++ transcript (toggles plan) scripts.
Proof.
  intros Hok Hsc Hlen Hsrv. rewrite test_extensions_toggles.
  apply (@run_converging_progress b g (toggles plan) scripts rest w Hok Hsc Hlen Hsrv).
Qed.

Lemma converging_run_transcript_witness :
  progress (log (world_of (test_extensions (lit "https://api") (lit "guid")
                             the_plan scenario_success))) =
    [Enabling (lit "pg_trgm"); Dot; Succeeded;
     Enabling (lit "hstore"); Dot; Succeeded;
     Disabling (lit "hstore"); Dot; Succeeded;
     Disabling (lit "pg_trgm"); Dot; Succeeded].
Proof.
  assert (Hok : tokens_ok scenario_success).
  { split; [reflexivity|]. intros _. reflexivity. }
  exact (@converging_run_transcript (lit "https://api") (lit "guid") the_plan
           [converging; converging; converging; converging] []
           scenario_success Hok eq_refl eq_refl eq_refl).
Defined.

(** ** Properties of the log which add up *)

Section Additive.
Variable P : list event -> Prop.
Hypothesis P_nil : P [].
Hypothesis P_app : forall l1 l2, P l1 -> P l2 -> P (l1 ++ l2).
Hypothesis P_other : forall e, stdin_event e = false -> P [e].
Hypothesis P_header : grows P _get_auth_header.

Lemma grows_bind {A B} (m : M A) (k : A -> M B) :
  grows P m -> (forall a, grows P (k a)) -> grows P (bind m k).
Proof.
  intros Hm Hk w. destruct (Hm w) as (es1 & Hlog1 & H1). unfold bind.
  destruct (m w) as [a w1|e w1|w1]; simpl in Hlog1.
  - destruct (Hk a w1) as (es2 & Hlog2 & H2).
    exists (es1 ++ es2). rewrite Hlog2, Hlog1, <- app_assoc. auto.
  - exists es1. auto.
  - exists es1. auto.
Qed.

Lemma grows_silent {A} (m : M A) :
  (forall w, world_of (m w) = w) -> grows P m.
Proof. intros H w. exists []. rewrite H, app_nil_r. auto. Qed.

Lemma grows_print o : o <> NewAuthToken -> grows P (print o).
Proof.
  intros Ho w. exists [Print o]. split; [reflexivity|].
  apply P_other. destruct o; try reflexivity. contradiction.
Qed.

Lemma grows_sleep n : grows P (sleep n).
Proof. intros w. exists [Sleep n]. split; [reflexivity|]. apply P_other. reflexivity. Qed.

Lemma grows_requests_get b g h srv : grows P (requests_get b g h srv).
Proof.
  intros w. exists [HttpGet b g h]. unfold requests_get.
  destruct (world_of_answer srv (emit (HttpGet b g h) w)) as (-> & _).
  split; [reflexivity|]. apply P_other. reflexivity.
Qed.

Lemma grows_requests_patch b g h json : grows P (requests_patch b g h json).
Proof.
  intros w. exists [HttpPatch b g h json]. unfold requests_patch.
  destruct (world_of_answer (server w) (emit (HttpPatch b g h json) w))
    as (-> & _).
  split; [reflexivity|]. apply P_other. reflexivity.
Qed.

Lemma grows_raise_for_status resp : grows P (raise_for_status resp).
Proof.
  apply grows_silent. intros w. unfold raise_for_status.
  destruct (_ && _)%bool; reflexivity.
Qed.

Lemma grows_poll b g srv : grows P (poll b g srv).
Proof.
  induction srv as [|x rest IH]; rewrite poll_unfold.
  all: apply grows_bind; [apply grows_sleep|intros _];
       apply grows_bind; [exact P_header|intros headers];
       apply grows_bind; [apply grows_requests_get|intros resp];
       apply grows_bind; [apply grows_raise_for_status|intros _];
       (apply grows_bind;
        [apply grows_silent; intros w; unfold json_last_operation;
         destruct (snd resp); reflexivity
        |intros op]);
       destruct (pystr_eqb (state op) (lit "succeeded"));
       [apply grows_print; discriminate|];
       destruct (pystr_eqb (state op) (lit "failed"));
       [apply grows_bind;
        [apply grows_silent; intros w; unfold json_description;
         destruct (description op); reflexivity
        |intros d; apply grows_bind;
         [apply grows_print; discriminate
         |intros _; apply grows_silent; reflexivity]]
       |apply grows_bind; [apply grows_print; discriminate|intros _]].
  - apply grows_silent. reflexivity.
  - exact IH.
Qed.

Lemma grows_wait_for_success b g : grows P (_wait_for_success b g).
Proof. intros w. exact (grows_poll b g (server w) w). Qed.

Lemma grows_for_each {A} (xs : list A) (body : A -> M unit) :
  (forall x, grows P (body x)) -> grows P (for_each xs body).
Proof.
  intros Hb. induction xs as [|x xs IH]; simpl.
  - apply grows_silent. reflexivity.
  - apply grows_bind; [apply Hb|intros _; exact IH].
Qed.

Lemma grows_test_extensions b g plan : grows P (test_extensions b g plan).
Proof.
  unfold test_extensions. apply grows_for_each. intros extension_set.
  apply grows_bind; [|intros _]; apply grows_for_each; intros extension;
    (apply grows_bind; [apply grows_print; discriminate|intros _]);
    (apply grows_bind; [exact P_header|intros headers]);
    (apply grows_bind; [apply grows_requests_patch|intros resp]);
    (apply grows_bind; [apply grows_raise_for_status|intros _]);
    apply grows_wait_for_success.
Qed.
End Additive.

(** ** Notices of new tokens *)

Lemma notices_app l1 l2 : notices (l1 ++ l2) = notices l1 + notices l2.
Proof. unfold notices. rewrite filter_app, length_app. reflexivity. Qed.

Lemma tokens_app l1 l2 : tokens (l1 ++ l2) = tokens l1 ++ tokens l2.
Proof. apply filter_app. Qed.

Lemma read_header_notices ls : forall w,
  exists es,
    log (world_of (read_header ls w)) = log w ++ es /\
    notices es = length (tokens (reads es)).
Proof.
  induction ls as [|raw ls IH]; intros w.
  - exists []. simpl. rewrite app_nil_r. destruct (closed w); auto.
  - simpl. rewrite truthy_strip. destruct (blank raw) eqn:B; simpl.
    + destruct (_auth_header w).
      * exists [Readline (Nat.eqb (avail w) 0) raw]. split; [reflexivity|].
        unfold notices, tokens. simpl. rewrite B. reflexivity.
      * destruct (IH (emit (Readline (Nat.eqb (avail w) 0) raw) (consume ls w)))
          as (es & Hlog & Hn).
        exists (Readline (Nat.eqb (avail w) 0) raw :: es).
        rewrite Hlog. simpl. rewrite <- app_assoc. split; [reflexivity|].
        unfold tokens. simpl. rewrite B. exact Hn.
    + exists [Readline (Nat.eqb (avail w) 0) raw; Print NewAuthToken].
      rewrite <- app_assoc. split; [reflexivity|].
      unfold notices, tokens. simpl. rewrite B. reflexivity.
Qed.

Lemma get_header_notices :
  grows (fun es => notices es = length (tokens (reads es))) _get_auth_header.
Proof.
  intros w. unfold _get_auth_header, bind, select_stdin, ret.
  destruct (_auth_header w) eqn:Hh.
  - destruct (readable w).
    + destruct (read_header_notices (lines (emit (Select true) w))
                  (emit (Select true) w)) as (es & Hlog & Hn).
      exists (Select true :: es).
      destruct (read_header _ _) as [a w'|e w'|w']; simpl in *;
        rewrite Hlog, <- app_assoc; auto.
    + exists [Select false]. simpl. auto.
  - destruct (read_header_notices (lines w) w) as (es & Hlog & Hn).
    exists es. destruct (read_header _ _) as [a w'|e w'|w']; simpl in *; auto.
Qed.

(** X14: whatever happens in a run, the notice of a new token is
    printed once for each line read from the stream which holds a token,
    and for no other reason: blank lines are read without a notice. *)
Theorem one_notice_per_token (b g : pystr) (plan : list (list pystr))
    (w : world) :
  exists es,
    log (world_of (test_extensions b g plan w)) = log w ++ es /\
    notices es = length (tokens (reads es)).
Proof.
  apply (@grows_test_extensions
           (fun es => notices es = length (tokens (reads es)))).
  - reflexivity.
  - intros l1 l2 H1 H2.
    rewrite notices_app, reads_app, tokens_app, length_app, H1, H2.
    reflexivity.
  - intros e He. destruct e as [| | o | | |]; try discriminate He;
      try reflexivity.
    destruct o; try discriminate He; reflexivity.
  - exact get_header_notices.
Qed.
